(** * Inductor sizing for a dual active bridge converter

    A shallow embedding of [code/DAB_inductor_selection.py]: the phase-shift
    solver, the RMS-current model, the search for the inductance bounds, the
    two sweeps and the sizing routine [dab_inductor_sizing_phaseShift].

    Numbers.  The program computes in IEEE double precision.  Here a float is
    a real number ([R]): rounding, overflow and underflow are left out, so
    a statement over [R] is about the arithmetic the program approximates.
    What real arithmetic leaves undefined is kept, the way Python and numpy
    treat it:
    - a division of Python floats by zero raises [ZeroDivisionError]
      ([Py.truediv]);
    - numpy arithmetic does not raise: a division by zero or the square root
      of a negative number gives an infinity or a NaN, which every later
      operation of this program passes on ([Py.npfloat], [Py.NonFinite]).

    Whether the two [while] loops come to an end is not a matter of the
    arithmetic being approximated: over [R] a candidate multiplied by
    [1.0001], or increased by [1e-6], always moves on, in double precision it
    can stay where it is.  The module [F64] has the two loops on binary64
    numbers, and the statements about their termination say which of the two
    they are about. *)

From Stdlib Require Import Reals Lra Lia Psatz ZArith List String Sorted.
From Stdlib Require PrimFloat.
Import ListNotations.
Local Open Scope R_scope.

(** ** Python and numpy primitives *)

Module Py.

(** The exceptions the program can raise.  [OverflowError] (a float power
    out of range) and [LinAlgError] ([np.roots] on a coefficient that is not
    finite) need a value that is not a real number: over [R] only
    [ZeroDivisionError] occurs, the other two in [F64] below. *)
Inductive exn : Type :=
| ZeroDivisionError
| OverflowError
| LinAlgError.

(** What a call does: return, raise, or still run when the fuel of a
    [while] loop is used up. *)
Inductive outcome (A : Type) : Type :=
| Ok (a : A)
| Raise (e : exn)
| OutOfFuel.
Arguments Ok {A} a.
Arguments Raise {A} e.
Arguments OutOfFuel {A}.

Definition obind {A B : Type} (o : outcome A) (f : A -> outcome B) : outcome B :=
  match o with
  | Ok a => f a
  | Raise e => Raise e
  | OutOfFuel => OutOfFuel
  end.

(** [x / y] on Python floats. *)
Definition truediv (x y : R) : outcome R :=
  if Req_dec_T y 0 then Raise ZeroDivisionError else Ok (x / y).

(** A numpy float64 scalar: a real number, or an infinity or NaN. *)
Inductive npfloat : Type :=
| Finite (r : R)
| NonFinite.

Definition np_map (f : R -> R) (x : npfloat) : npfloat :=
  match x with
  | Finite r => Finite (f r)
  | NonFinite => NonFinite
  end.

Definition np_map2 (f : R -> R -> R) (x y : npfloat) : npfloat :=
  match x, y with
  | Finite a, Finite b => Finite (f a b)
  | _, _ => NonFinite
  end.

(** [x / y] where [x] is a numpy scalar and [y] a float. *)
Definition np_div (x : npfloat) (y : R) : npfloat :=
  match x with
  | Finite r => if Req_dec_T y 0 then NonFinite else Finite (r / y)
  | NonFinite => NonFinite
  end.

(** [np.sqrt(x)] *)
Definition np_sqrt (x : R) : npfloat :=
  if Rlt_dec x 0 then NonFinite else Finite (sqrt x).

(** A complex number, as [np.roots] returns them. *)
Record complex : Type := Complex { re : R; im : R }.

(** [np.roots([a, b, c])] for a leading coefficient [a] that is not zero
    (every call of the program passes [a = -2] and [b = 1]): the two
    eigenvalues of the companion matrix, that is the two roots of
    [a x^2 + b x + c], in the order numpy returns them.  LAPACK computes
    [p + sign(p) * sqrt(p^2 - c/a)] with [p = -b / (2 a)] first and the other
    root second, so the root of larger magnitude comes first
    ([np.roots([-2, 1, -3/32])] is [[0.375, 0.125]]); a complex-conjugate
    pair, when the discriminant is negative, has the positive imaginary part
    first. *)
Definition np_roots (a b c : R) : complex * complex :=
  let disc := b * b - 4 * a * c in
  let p := - b / (2 * a) in
  if Rle_dec 0 disc then
    let s := sqrt disc / Rabs (2 * a) in
    if Rle_dec 0 p then (Complex (p + s) 0, Complex (p - s) 0)
    else (Complex (p - s) 0, Complex (p + s) 0)
  else
    let s := sqrt (- disc) / Rabs (2 * a) in
    (Complex p s, Complex p (- s)).

(** [np.real] on the pair of roots. *)
Definition np_real (zs : complex * complex) : R * R :=
  (re (fst zs), re (snd zs)).

(** [min] of a two-element array: Python starts from the first element and
    replaces it by a later one only when that one compares smaller
    ([item < current]). *)
Definition min2 (xs : R * R) : R :=
  if Rlt_dec (snd xs) (fst xs) then snd xs else fst xs.

(** [int(x)] of a float: truncation towards zero. *)
Definition int (x : R) : Z :=
  if Rle_dec 0 x then Int_part x else (- Int_part (- x))%Z.

(** [range(lo, hi)] *)
Definition range (lo hi : Z) : list Z :=
  map (fun i => (lo + Z.of_nat i)%Z) (seq 0 (Z.to_nat (hi - lo))).

End Py.
Import Py.

Notation "x <~ o ;; k" := (obind o (fun x => k))
  (at level 61, o at next level, right associativity).

(** ** Global semiconductor parameters *)

Definition Coss_pri : R := 92e-12 / 10000.
Definition Ron_pri : R := 80e-3.
Definition Coss_sec : R := 260e-12.
Definition Ron_sec : R := 21e-3.

(** ** The operating-point solver

    The program has no function for it: the same six lines are written out in
    [ploss_vs_resolution] (82-87), [ploss_vs_P] (160-165) and three times in
    [dab_inductor_sizing_phaseShift] (272-278, 289-293, 356-361). *)

(** [c = -P * fsw * L / n / V1 / V2] *)
Definition quadratic_c (P fsw L n V1 V2 : R) : outcome R :=
  x <~ truediv (- P * fsw * L) n ;;
  y <~ truediv x V1 ;;
  truediv y V2.

(** [roots = np.roots([a, b, c]); phi = min(np.real(roots))] with
    [a = -2], [b = 1]. *)
Definition select_root (c : R) : R :=
  let a := -2 in
  let b := 1 in
  let roots := np_roots a b c in
  min2 (np_real roots).

Definition solve_phase_shift (P fsw L n V1 V2 : R) : outcome R :=
  c <~ quadratic_c P fsw L n V1 V2 ;;
  Ok (select_root c).

(** The discriminant [b^2 - 4 a c] of the quadratic [-2 phi^2 + phi + c]. *)
Definition discriminant (c : R) : R := 1 * 1 - 4 * (-2) * c.

(** The power the bridge transfers at phase shift [phi], as the program
    writes it: [n * V1 * V2 * phi * (1 - 2*phi) / fsw / L]. *)
Definition power_transfer (n V1 V2 phi fsw L : R) : R :=
  n * V1 * V2 * phi * (1 - 2 * phi) / fsw / L.

(** The resolution step: the power at [phi] minus the power at
    [phi - phase_shift_min]. *)
Definition resolution_step (n V1 V2 phi phase_shift_min fsw L : R) : R :=
  power_transfer n V1 V2 phi fsw L
  - power_transfer n V1 V2 (phi - phase_shift_min) fsw L.

(** The resolution step at inductance [L] once the phase shift is solved
    again for the power [P] at that [L]. *)
Definition resolution_at (P fsw n V1 V2 phase_shift_min L : R) : R :=
  resolution_step n V1 V2 (select_root (- P * fsw * L / n / V1 / V2))
    phase_shift_min fsw L.

(** The same expression on numpy scalars, where a zero [fsw] or [L] gives a
    non-finite value instead of an exception. *)
Definition np_power_transfer (n V1 V2 phi fsw L : R) : npfloat :=
  np_div (np_div (Finite (n * V1 * V2 * phi * (1 - 2 * phi))) fsw) L.

Definition np_resolution_step (n V1 V2 phi phase_shift_min fsw L : R) : npfloat :=
  np_map2 Rminus
    (np_power_transfer n V1 V2 phi fsw L)
    (np_power_transfer n V1 V2 (phi - phase_shift_min) fsw L).

(** ** The RMS-current model *)

Definition Irms_prim_phaseShift (phi V1 V2 n fsw L : R) : outcome npfloat :=
  let D1 := 0.5 in
  let D2 := 0.5 in
  let eRMS := (1 - 4 * Rabs phi)
              * (1 - 2 * Rabs phi + 4 * phi ^ 2
                 - 3 * (D1 * (1 - D1) + D2 * (1 - D2))) in
  k <~ truediv 1 (2 * fsw * L) ;;
  Ok (np_map (Rmult k)
        (np_sqrt (D1 ^ 2 * V1 ^ 2 * (1 - 4 / 3 * D1)
                  + D2 ^ 2 * n ^ 2 * V2 ^ 2 * (1 - 4 / 3 * D2)
                  + n * V1 * V2 / 3 * eRMS))).

(** The RMS currents and conduction losses of one operating point: the block
    written out at lines 94-101, 167-175 and 381-388. *)
Record conduction : Type := Conduction {
  I_pri_RMS : npfloat;
  I_sec_RMS : npfloat;
  pri_Pcond : npfloat;
  sec_Pcond : npfloat
}.

Definition total_Pcond (cd : conduction) : npfloat :=
  np_map2 Rplus (pri_Pcond cd) (sec_Pcond cd).

Definition rms_and_conduction (phi V1 V2 n fsw L : R) : outcome conduction :=
  I_pri <~ Irms_prim_phaseShift phi V1 V2 n fsw L ;;
  let I_sec := np_map (fun i => i * n) I_pri in
  let pri := np_map (fun i => 2 * Ron_pri * i ^ 2) I_pri in
  let sec := np_map (fun i => 2 * Ron_sec * i ^ 2) I_sec in
  Ok (Conduction I_pri I_sec pri sec).

(** ** The sweeps *)

(** One sample of [ploss_vs_resolution]: the entries appended to [Ls],
    [phis], [resolutions] and [Pconds] in one iteration. *)
Record resolution_sample : Type := ResolutionSample {
  rs_L : R;
  rs_phi : R;
  rs_resolution : npfloat;
  rs_Pcond : npfloat
}.

(** The body of the loop of [ploss_vs_resolution] (lines 81-101) at one
    inductance [L]. *)
Definition resolution_point (power L fsw n V1 V2 phase_shift_min : R)
    : outcome resolution_sample :=
  phi <~ solve_phase_shift power fsw L n V1 V2 ;;
  let resolution := np_resolution_step n V1 V2 phi phase_shift_min fsw L in
  cd <~ rms_and_conduction phi V1 V2 n fsw L ;;
  Ok (ResolutionSample L phi resolution (total_Pcond cd)).

(** The loop [while L <= Lmax: ...; L += 1e-6] of [ploss_vs_resolution], in
    exact arithmetic, where [L + 1e-6] is always beyond [L];
    [F64.resolution_sweep] is the loop on the program's numbers. *)
Fixpoint resolution_sweep (fuel : nat)
    (power L Lmax fsw n V1 V2 phase_shift_min : R)
    : outcome (list resolution_sample) :=
  if Rle_dec L Lmax then
    match fuel with
    | O => OutOfFuel
    | S fuel' =>
        s <~ resolution_point power L fsw n V1 V2 phase_shift_min ;;
        rest <~ resolution_sweep fuel' power (L + 1e-6) Lmax fsw n V1 V2
                  phase_shift_min ;;
        Ok (s :: rest)
    end
  else Ok [].

(** [ploss_vs_resolution]: the series it hands to the plot.  [Ts] is an
    argument the function never reads. *)
Definition ploss_vs_resolution (fuel : nat)
    (power Lmin Lmax fsw n V1 V2 Ts phase_shift_min : R)
    : outcome (list resolution_sample) :=
  resolution_sweep fuel power Lmin Lmax fsw n V1 V2 phase_shift_min.

(** One sample of [ploss_vs_P]: the entries appended to [powers], [Pconds],
    [Iout_rms] and [effs]. *)
Record power_sample : Type := PowerSample {
  ps_P : Z;
  ps_Pcond : npfloat;
  ps_Iout_rms : npfloat;
  ps_eff : npfloat
}.

(** The body of the loop of [ploss_vs_P] (lines 158-178) at one power [P]. *)
Definition power_point (P : Z) (Ltot fsw n V1 V2 : R) : outcome power_sample :=
  phi <~ solve_phase_shift (IZR P) fsw Ltot n V1 V2 ;;
  cd <~ rms_and_conduction phi V1 V2 n fsw Ltot ;;
  let Pcond := total_Pcond cd in
  let eff := np_map (fun x => 1 - x) (np_div Pcond (IZR P)) in
  Ok (PowerSample P Pcond (I_sec_RMS cd) eff).

Fixpoint power_sweep (Ps : list Z) (Ltot fsw n V1 V2 : R)
    : outcome (list power_sample) :=
  match Ps with
  | [] => Ok []
  | P :: Ps' =>
      s <~ power_point P Ltot fsw n V1 V2 ;;
      rest <~ power_sweep Ps' Ltot fsw n V1 V2 ;;
      Ok (s :: rest)
  end.

(** [ploss_vs_P]: [for P in range(int(Pmin), int(Pmax) + 1)]. *)
Definition ploss_vs_P (Pmin Pmax Ltot fsw n V1 V2 : R)
    : outcome (list power_sample) :=
  power_sweep (range (int Pmin) (int Pmax + 1)) Ltot fsw n V1 V2.

(** ** Console, warnings and figures *)

Inductive limiter : Type :=
| resolution_requirement
| ZVS_condition_at_minimum_power.

(** The lines the sizing routine prints, with the values it formats. *)
Inductive line : Type :=
| Line_Lmin_ZVS (Lmin : R)
| Line_max_L_not_achieved (Lmax phi_max P : R) (lim : limiter)
| Line_resolution_full_power (min_deltaP : R)
| Line_min_L (Lmin phi P_min : R) (lim : limiter)
| Line_based_on
| Line_resolution_min_L (max_deltaP : R)
| Line_max_L (Lmax phi_max P : R)
| Line_resolution_max_L (min_deltaP : R)
| Line_operating_outside
| Line_invalid_input
| Line_non_interactive
| Line_bounds_warning
| Line_selected (Ltot Llk Lext : R)
| Line_full_power (phi t_phi : R) (resolution : npfloat)
| Line_max_power (P_max : R)
| Line_min_power_ZVS (P_min : npfloat)
| Line_currents (I_pri I_sec : npfloat)
| Line_conduction (pri sec total : npfloat)
| Line_efficiency (nu : npfloat).

Inductive event : Type :=
| Stdout (l : line)
| Warning (lim : limiter)            (* warnings.warn(..., UserWarning) *)
| Prompt                          (* the prompt of input(...) *)
| Figure_resolution (power : R) (series : list resolution_sample)
| Figure_power (Ltot : R) (series : list power_sample)
| Plt_show (block : bool).

(** What [input(...)] does. *)
Inductive input_result : Type :=
| Entered (text : string)
| EOFError
| KeyboardInterrupt.

(** A computation that appends to the log of events. *)
Definition M (A : Type) : Type := list event -> outcome A * list event.

Definition ret {A : Type} (a : A) : M A := fun log => (Ok a, log).

Definition bind {A B : Type} (m : M A) (f : A -> M B) : M B :=
  fun log =>
    match m log with
    | (Ok a, log') => f a log'
    | (Raise e, log') => (Raise e, log')
    | (OutOfFuel, log') => (OutOfFuel, log')
    end.

Definition lift {A : Type} (o : outcome A) : M A := fun log => (o, log).

Definition emit (e : event) : M unit := fun log => (Ok tt, log ++ [e]).

Notation "x <- m ;; k" := (bind m (fun x => k))
  (at level 61, m at next level, right associativity).
Notation "m ;;; k" := (bind m (fun _ => k))
  (at level 61, right associativity).

(** ** The sizing routine *)

(** The keyword arguments of [dab_inductor_sizing_phaseShift]; [None] is
    Python's [None]. *)
Record sizing_args : Type := SizingArgs {
  arg_P : option R;
  arg_V1 : option R;
  arg_V2 : option R;
  arg_fsw : option R;
  arg_f_clk : option R;
  arg_Llk : option R;
  arg_n : option R;
  arg_resolution_percentage : option R;
  arg_Ltot : option R
}.

(** The dictionary the routine returns. *)
Record sizing_result : Type := SizingResult {
  res_Lmin : R;
  res_Lmax : R;
  res_Ltot : R;
  res_phi : R;
  res_resolution : npfloat;
  res_I_pri_RMS : npfloat;
  res_I_sec_RMS : npfloat;
  res_total_Pcond : npfloat;
  res_efficiency : npfloat
}.

Definition default (d : R) (o : option R) : R :=
  match o with
  | Some x => x
  | None => d
  end.

(** Lines 268-269: the closed-form lower bound for zero-voltage switching. *)
Definition zvs_lower_bound (P_min V1 V2 n Ts : R) : outcome R :=
  Iout_min <~ truediv P_min V2 ;;
  inv_n <~ truediv 1 n ;;
  q <~ truediv (2 * Ts * V1) (inv_n * Iout_min * Ts + 8 * Coss_pri * V1) ;;
  Ok (Coss_pri * q ^ 2).

(** The locals of the lower-bound search. *)
Record search_state : Type := SearchState {
  st_Lmin : R;
  st_phi : R;
  st_max_deltaP : R;
  st_resolution_limited : bool
}.

(** Lines 286-295: [while max_deltaP > max_allowed_deltaP].  [fsw] and [Lmin]
    are not zero here ([1 / fsw] and the division by [V1] have succeeded), so
    the numpy divisions of the resolution step are those of [R].  This is the
    loop in exact arithmetic, where [Lmin * 1.0001] is always beyond a
    positive [Lmin]; [F64.resolution_search] is the loop on the program's
    numbers. *)
Fixpoint resolution_search (fuel : nat)
    (P_min fsw n V1 V2 phase_shift_min max_allowed_deltaP : R)
    (st : search_state) : outcome search_state :=
  if Rgt_dec (st_max_deltaP st) max_allowed_deltaP then
    match fuel with
    | O => OutOfFuel
    | S fuel' =>
        let Lmin := st_Lmin st * 1.0001 in
        phi <~ solve_phase_shift P_min fsw Lmin n V1 V2 ;;
        let max_deltaP := resolution_step n V1 V2 phi phase_shift_min fsw Lmin in
        resolution_search fuel' P_min fsw n V1 V2 phase_shift_min
          max_allowed_deltaP (SearchState Lmin phi max_deltaP true)
    end
  else Ok st.

(** Lines 307-308: the largest inductance that still transfers [P], reached
    at the largest usable phase shift. *)
Definition phi_max : R := 0.25.

Definition upper_bound (P V1 V2 fsw n : R) : outcome R :=
  truediv (n * V1 * V2 * 0.25 * (1 - 2 * phi_max)) (P * fsw).

(** What the first half of the routine (lines 254-310) leaves in its locals. *)
Record bounds : Type := Bounds {
  b_Ts : R;
  b_P_min : R;
  b_phase_shift_min : R;
  b_Lmin : R;
  b_phi : R;
  b_max_deltaP : R;
  b_limiter : limiter;
  b_Lmax : R;
  b_min_deltaP : R
}.

(** Lines 254-310: the lower bound (zero-voltage switching, then resolution)
    and the upper bound (power transfer at [phi_max = 0.25]). *)
Definition compute_bounds (fuel : nat) (P V1 V2 fsw f_clk n resolution_percentage : R)
    : M bounds :=
  Ts <- lift (truediv 1 fsw) ;;
  let P_min := 0.5 * P in
  let max_allowed_deltaP := resolution_percentage * P in
  Lmin <- lift (zvs_lower_bound P_min V1 V2 n Ts) ;;
  emit (Stdout (Line_Lmin_ZVS Lmin)) ;;;
  c <- lift (quadratic_c P_min fsw Lmin n V1 V2) ;;
  phase_shift_min <- lift (x <~ truediv 1 f_clk ;; truediv x Ts) ;;
  let phi := select_root c in
  let max_deltaP := resolution_step n V1 V2 phi phase_shift_min fsw Lmin in
  st <- lift (resolution_search fuel P_min fsw n V1 V2 phase_shift_min
                max_allowed_deltaP (SearchState Lmin phi max_deltaP false)) ;;
  let limiter := if st_resolution_limited st then resolution_requirement
                 else ZVS_condition_at_minimum_power in
  Lmax <- lift (upper_bound P V1 V2 fsw n) ;;
  min_deltaP <- lift (
    x1 <~ truediv (n * V1 * V2 * phi_max * (1 - 2 * phi_max)) fsw ;;
    y1 <~ truediv x1 Lmax ;;
    x2 <~ truediv (n * V1 * V2 * (phi_max - phase_shift_min)
                   * (1 - 2 * (phi_max - phase_shift_min))) fsw ;;
    y2 <~ truediv x2 Lmax ;;
    Ok (y1 - y2)) ;;
  ret (Bounds Ts P_min phase_shift_min (st_Lmin st) (st_phi st)
         (st_max_deltaP st) limiter Lmax min_deltaP).

(** Lines 313-331: the feasibility check on the bounds. *)
Definition report_bounds (fuel : nat) (P V1 V2 fsw n : R) (b : bounds) : M unit :=
  if Rlt_dec (b_Lmax b) (b_Lmin b) then
    emit (Warning (b_limiter b)) ;;;
    emit (Stdout (Line_max_L_not_achieved (b_Lmax b) phi_max P (b_limiter b))) ;;;
    emit (Stdout (Line_resolution_full_power (b_min_deltaP b)))
  else
    emit (Stdout (Line_min_L (b_Lmin b) (b_phi b) (b_P_min b) (b_limiter b))) ;;;
    emit (Stdout Line_based_on) ;;;
    emit (Stdout (Line_resolution_min_L (b_max_deltaP b))) ;;;
    emit (Stdout (Line_max_L (b_Lmax b) phi_max P)) ;;;
    emit (Stdout (Line_resolution_max_L (b_min_deltaP b))) ;;;
    emit (Stdout Line_operating_outside) ;;;
    fig1 <- lift (ploss_vs_resolution fuel P (b_Lmin b) (b_Lmax b) fsw n V1 V2
                    (b_Ts b) (b_phase_shift_min b)) ;;
    emit (Figure_resolution P fig1) ;;;
    fig2 <- lift (ploss_vs_resolution fuel (b_P_min b) (b_Lmin b) (b_Lmax b) fsw
                    n V1 V2 (b_Ts b) (b_phase_shift_min b)) ;;
    emit (Figure_resolution (b_P_min b) fig2) ;;;
    emit (Plt_show false).

Section Sizing.

(** [float(text)]: [None] when it raises [ValueError]. *)
Variable py_float : string -> option R.

(** Lines 336-350: the manual selection of the inductance. *)
Definition select_inductance (Ltot : option R) (stdin : input_result)
    (Lmin Lmax : R) : M R :=
  Ltot <- match Ltot with
          | Some Ltot => ret Ltot
          | None =>
              emit Prompt ;;;
              match stdin with
              | Entered Ltot_input =>
                  match py_float Ltot_input with
                  | Some Ltot => ret Ltot
                  | None =>
                      emit (Stdout Line_invalid_input) ;;;
                      ret ((Lmin + Lmax) / 2)
                  end
              | EOFError | KeyboardInterrupt =>
                  emit (Stdout Line_non_interactive) ;;;
                  ret ((Lmin + Lmax) / 2)
              end
          end ;;
  (if Rlt_dec Ltot Lmin then emit (Stdout Line_bounds_warning)
   else if Rgt_dec Ltot Lmax then emit (Stdout Line_bounds_warning)
   else ret tt) ;;;
  ret Ltot.

(** Lines 356-398: the operating point at full power for the selected
    inductance, with its currents, losses and efficiency. *)
Definition design_characteristics (P V1 V2 fsw Llk n : R) (b : bounds) (Ltot : R)
    : M sizing_result :=
  let Ts := b_Ts b in
  phi <- lift (solve_phase_shift P fsw Ltot n V1 V2) ;;
  let resolution := np_resolution_step n V1 V2 phi (b_phase_shift_min b) fsw Ltot in
  let t_phi := phi * Ts in
  let Lext := Ltot - Llk in
  emit (Stdout (Line_selected Ltot Llk Lext)) ;;;
  emit (Stdout (Line_full_power phi t_phi resolution)) ;;;
  P_max_inductanceChoice <- lift (
    x <~ truediv (n * V2 * V1 * 0.25 * (1 - 2 * 0.25)) fsw ;; truediv x Ltot) ;;
  emit (Stdout (Line_max_power P_max_inductanceChoice)) ;;;
  nV2_Ts <- lift (truediv (n * V2) Ts) ;;
  let P_min_inductanceChoice :=
    np_map (fun q => nV2_Ts * (q - 8 * Coss_pri * V1))
      (match np_sqrt Ltot with
       | Finite s => np_div (np_map (Rmult (2 * Ts * V1)) (np_sqrt Coss_pri)) s
       | NonFinite => NonFinite
       end) in
  emit (Stdout (Line_min_power_ZVS P_min_inductanceChoice)) ;;;
  cd <- lift (rms_and_conduction phi V1 V2 n fsw Ltot) ;;
  let total := total_Pcond cd in
  emit (Stdout (Line_currents (I_pri_RMS cd) (I_sec_RMS cd))) ;;;
  emit (Stdout (Line_conduction (pri_Pcond cd) (sec_Pcond cd) total)) ;;;
  let Pin := P in
  let Pout := np_map (fun t => P - t) total in
  let nu := np_div Pout Pin in
  emit (Stdout (Line_efficiency nu)) ;;;
  ret (SizingResult (b_Lmin b) (b_Lmax b) Ltot phi resolution
         (I_pri_RMS cd) (I_sec_RMS cd) total nu).

(** Lines 403-405: the sweep over the power range, for a feasible design. *)
Definition power_range_plot (P V1 V2 fsw n : R) (b : bounds) (Ltot : R) : M unit :=
  if Rge_dec (b_Lmax b) (b_Lmin b) then
    fig3 <- lift (ploss_vs_P (b_P_min b) P Ltot fsw n V1 V2) ;;
    emit (Figure_power Ltot fig3) ;;;
    emit (Plt_show true)
  else ret tt.

Definition dab_inductor_sizing_phaseShift (fuel : nat) (args : sizing_args)
    (stdin : input_result) : M sizing_result :=
  let P := default 1e3 (arg_P args) in
  let V1 := default 720 (arg_V1 args) in
  let V2 := default 40 (arg_V2 args) in
  let fsw := default 100e3 (arg_fsw args) in
  let f_clk := default 250e6 (arg_f_clk args) in
  let Llk := default 10e-6 (arg_Llk args) in
  let n := default 15 (arg_n args) in
  let resolution_percentage := default 0.025 (arg_resolution_percentage args) in
  b <- compute_bounds fuel P V1 V2 fsw f_clk n resolution_percentage ;;
  report_bounds fuel P V1 V2 fsw n b ;;;
  Ltot <- select_inductance (arg_Ltot args) stdin (b_Lmin b) (b_Lmax b) ;;
  r <- design_characteristics P V1 V2 fsw Llk n b Ltot ;;
  power_range_plot P V1 V2 fsw n b Ltot ;;;
  ret r.

End Sizing.

(** ** The two [while] loops in double precision

    Whether a loop that runs until a float passes a threshold comes to an end
    depends on rounding, which [R] leaves out.  This module has the
    lower-bound search (lines 254-295) and the sweep of
    [ploss_vs_resolution] (lines 78-103) once more, on IEEE binary64 numbers
    with the operations of the hardware: the arguments are Python floats.

    [np.roots] hands the companion matrix to LAPACK, whose rounding is not
    modelled: the real parts [np.real(np.roots([-2, 1, c]))] are a parameter
    [np_roots] of the definitions, a function of [c] that may raise
    ([LinAlgError] when [c] is not finite).  What the routine prints is left
    out. *)

Module F64.
Import PrimFloat.
Local Open Scope float_scope.
#[local] Set Warnings "-inexact-float".

Definition Coss_pri : float := 92e-12 / 10000.
Definition Ron_pri : float := 80e-3.
Definition Ron_sec : float := 21e-3.

(** [x / y] on Python floats. *)
Definition truediv (x y : float) : outcome float :=
  if y =? 0 then Raise ZeroDivisionError else Ok (x / y).

(** [x ** 2] on a Python float: the C library's [pow], with
    [OverflowError] when the result of a finite [x] is out of range. *)
Definition square (x : float) : outcome float :=
  let y := x * x in
  if andb (is_infinity y) (negb (is_infinity x)) then Raise OverflowError else Ok y.

(** [min] of a two-element array, with the comparison of floats. *)
Definition min2 (xs : float * float) : float :=
  if snd xs <? fst xs then snd xs else fst xs.

(** [c = -P * fsw * L / n / V1 / V2] *)
Definition quadratic_c (P fsw L n V1 V2 : float) : outcome float :=
  x <~ truediv (- P * fsw * L) n ;;
  y <~ truediv x V1 ;;
  truediv y V2.

(** [n * V1 * V2 * phi * (1 - 2*phi) / fsw / L], where [phi] is a numpy
    scalar: the divisions are numpy's and raise nothing. *)
Definition power_transfer (n V1 V2 phi fsw L : float) : float :=
  n * V1 * V2 * phi * (1 - 2 * phi) / fsw / L.

Definition resolution_step (n V1 V2 phi phase_shift_min fsw L : float) : float :=
  power_transfer n V1 V2 phi fsw L
  - power_transfer n V1 V2 (phi - phase_shift_min) fsw L.

(** Lines 268-269. *)
Definition zvs_lower_bound (P_min V1 V2 n Ts : float) : outcome float :=
  Iout_min <~ truediv P_min V2 ;;
  inv_n <~ truediv 1 n ;;
  q <~ truediv (2 * Ts * V1) (inv_n * Iout_min * Ts + 8 * Coss_pri * V1) ;;
  q2 <~ square q ;;
  Ok (Coss_pri * q2).

Record search_state : Type := SearchState {
  st_Lmin : float;
  st_phi : float;
  st_max_deltaP : float;
  st_resolution_limited : bool
}.


(** [Irms_prim_phaseShift], lines 44-52; [phi] is a numpy scalar, the other
    arguments are Python floats. *)
Definition Irms_prim_phaseShift (phi V1 V2 n fsw L : float) : outcome float :=
  let D1 := 0.5 in
  let D2 := 0.5 in
  let eRMS := (1 - 4 * abs phi)
              * (1 - 2 * abs phi + 4 * (phi * phi)
                 - 3 * (D1 * (1 - D1) + D2 * (1 - D2))) in
  k <~ truediv 1 (2 * fsw * L) ;;
  D1sq <~ square D1 ;;
  V1sq <~ square V1 ;;
  D2sq <~ square D2 ;;
  nsq <~ square n ;;
  V2sq <~ square V2 ;;
  Ok (k * sqrt (D1sq * V1sq * (1 - 4 / 3 * D1)
                + D2sq * nsq * V2sq * (1 - 4 / 3 * D2)
                + n * V1 * V2 / 3 * eRMS)).

(** One sample of [ploss_vs_resolution]. *)
Record resolution_sample : Type := ResolutionSample {
  rs_L : float;
  rs_phi : float;
  rs_resolution : float;
  rs_Pcond : float
}.

Section Roots.

Variable np_roots : float -> outcome (float * float).

(** [roots = np.roots([a, b, c]); phi = min(np.real(roots))] *)
Definition select_root (c : float) : outcome float :=
  roots <~ np_roots c ;;
  Ok (min2 roots).


(** Lines 286-295: [while max_deltaP > max_allowed_deltaP]. *)
Fixpoint resolution_search (fuel : nat)
    (P_min fsw n V1 V2 phase_shift_min max_allowed_deltaP : float)
    (st : search_state) : outcome search_state :=
  if max_allowed_deltaP <? st_max_deltaP st then
    match fuel with
    | O => OutOfFuel
    | S fuel' =>
        let Lmin := st_Lmin st * 1.0001 in
        c <~ quadratic_c P_min fsw Lmin n V1 V2 ;;
        phi <~ select_root c ;;
        let max_deltaP := resolution_step n V1 V2 phi phase_shift_min fsw Lmin in
        resolution_search fuel' P_min fsw n V1 V2 phase_shift_min
          max_allowed_deltaP (SearchState Lmin phi max_deltaP true)
    end
  else Ok st.


(** The body of the loop of [ploss_vs_resolution] (lines 81-101). *)
Definition resolution_point (power L fsw n V1 V2 phase_shift_min : float)
    : outcome resolution_sample :=
  c <~ quadratic_c power fsw L n V1 V2 ;;
  phi <~ select_root c ;;
  let resolution := resolution_step n V1 V2 phi phase_shift_min fsw L in
  I_pri_RMS <~ Irms_prim_phaseShift phi V1 V2 n fsw L ;;
  let I_sec_RMS := I_pri_RMS * n in
  let pri_Pcond := 2 * Ron_pri * (I_pri_RMS * I_pri_RMS) in
  let sec_Pcond := 2 * Ron_sec * (I_sec_RMS * I_sec_RMS) in
  Ok (ResolutionSample L phi resolution (pri_Pcond + sec_Pcond)).

(** The loop [while L <= Lmax: ...; L += 1e-6]. *)
Fixpoint resolution_sweep (fuel : nat)
    (power L Lmax fsw n V1 V2 phase_shift_min : float)
    : outcome (list resolution_sample) :=
  if L <=? Lmax then
    match fuel with
    | O => OutOfFuel
    | S fuel' =>
        s <~ resolution_point power L fsw n V1 V2 phase_shift_min ;;
        rest <~ resolution_sweep fuel' power (L + 1e-6) Lmax fsw n V1 V2
                  phase_shift_min ;;
        Ok (s :: rest)
    end
  else Ok [].

Definition ploss_vs_resolution (fuel : nat)
    (power Lmin Lmax fsw n V1 V2 Ts phase_shift_min : float)
    : outcome (list resolution_sample) :=
  resolution_sweep fuel power Lmin Lmax fsw n V1 V2 phase_shift_min.

End Roots.

End F64.

(** * The analyzer of [code/sst_analysis.py]

    The methods of [SSTAnalyzer] that compute with numbers.  Floats are read
    as real numbers as above.  [harmonic_analysis] (an FFT) and
    [plot_power_analysis] are not modelled. *)

Module SST.

Inductive error : Type :=
| ZeroDivisionError
| KeyError (key : string)
| ValueError.

(** What a call does: return or raise. *)
Inductive result (A : Type) : Type :=
| Return (a : A)
| Throw (e : error).
Arguments Return {A} a.
Arguments Throw {A} e.

Definition rbind {A B : Type} (r : result A) (f : A -> result B) : result B :=
  match r with
  | Return a => f a
  | Throw e => Throw e
  end.

(** [x / y] on Python floats. *)
Definition fdiv (x y : R) : result R :=
  if Req_dec_T y 0 then Throw ZeroDivisionError else Return (x / y).

(** The dataclass [SSTParameters] and its defaults. *)
Record SSTParameters : Type := Build_SSTParameters {
  input_voltage : R;
  output_voltage : R;
  power_rating : R;
  switching_frequency : R;
  efficiency : R;
  thd_limit : R
}.

Definition default_parameters : SSTParameters :=
  Build_SSTParameters 400.0 208.0 10.0 50.0 0.95 0.03.

(** [SSTAnalyzer]: the attributes [__init__] sets. *)
Record SSTAnalyzer : Type := Build_SSTAnalyzer {
  params : SSTParameters;
  fundamental_freq : R
}.

Definition init (p : SSTParameters) : SSTAnalyzer := Build_SSTAnalyzer p 60.0.

(** The dictionary [calculate_power_losses] returns. *)
Record power_losses : Type := Build_power_losses {
  total_loss : R;
  switching_losses : R;
  conduction_losses : R;
  magnetic_losses : R;
  other_losses : R;
  input_power : R
}.

(** [calculate_power_losses(output_power)] for a Python float. *)
Definition calculate_power_losses (self : SSTAnalyzer) (output_power : R)
    : result power_losses :=
  rbind (fdiv (output_power * (1 - efficiency (params self)))
           (efficiency (params self)))
    (fun total_loss =>
       let switching_losses := total_loss * 0.35 in
       let conduction_losses := total_loss * 0.30 in
       let magnetic_losses := total_loss * 0.20 in
       let other_losses := total_loss * 0.15 in
       Return (Build_power_losses total_loss switching_losses conduction_losses
                 magnetic_losses other_losses (output_power + total_loss))).

(** [calculate_dc_link_voltage()]: a numpy scalar, always finite. *)
Definition calculate_dc_link_voltage (self : SSTAnalyzer) : R :=
  1.35 * input_voltage (params self) * sqrt 2.

(** [calculate_transformer_turns_ratio()]: a division of numpy scalars. *)
Definition calculate_transformer_turns_ratio (self : SSTAnalyzer) : npfloat :=
  let vdc_in := calculate_dc_link_voltage self in
  let vdc_out := 1.35 * output_voltage (params self) * sqrt 2 in
  np_div (Finite vdc_out) vdc_in.

(** A dictionary with string keys, as a list of its items. *)
Definition dict : Type := list (string * R).

(** [d[key]] *)
Fixpoint getitem (d : dict) (key : string) : result R :=
  match d with
  | [] => Throw (KeyError key)
  | (k, v) :: d' => if string_dec k key then Return v else getitem d' key
  end.

Definition default_mosfet_params : dict :=
  [("E_on"%string, 0.5); ("E_off"%string, 0.3); ("V_ds"%string, 600);
   ("I_d"%string, 20)].

(** [calculate_switching_losses(output_power, mosfet_params)] *)
Definition calculate_switching_losses (self : SSTAnalyzer) (output_power : R)
    (mosfet_params : option dict) : result R :=
  let mosfet_params :=
    match mosfet_params with
    | Some d => d
    | None => default_mosfet_params
    end in
  let f_sw := switching_frequency (params self) * 1000 in
  let n_switches := 8 in
  rbind (getitem mosfet_params "E_on") (fun E_on =>
  rbind (getitem mosfet_params "E_off") (fun E_off =>
  let P_sw_per_switch := (E_on + E_off) * f_sw / 1000 in
  let total_switching_losses := P_sw_per_switch * n_switches / 1000 in
  Return total_switching_losses)).

(** [np.linspace(start, stop, num)] *)
Definition linspace (start stop : R) (num : Z) : result (list R) :=
  if (num <? 0)%Z then Throw ValueError
  else
    Return
      (match Z.to_nat num with
       | O => []
       | S O => [start]
       | S (S m) =>
           map (fun i => if Nat.eqb i (S m) then stop
                         else INR i * ((stop - start) / INR (S m)) + start)
             (seq 0 (S (S m)))
       end).

(** [generate_sine_wave(amplitude, frequency, duration, sampling_rate)]: the
    pair [(t, waveform)]. *)
Definition generate_sine_wave (self : SSTAnalyzer)
    (amplitude frequency duration sampling_rate : R)
    : result (list R * list R) :=
  rbind (linspace 0 duration (int (sampling_rate * duration))) (fun t =>
  let waveform := map (fun ti => amplitude * sin (2 * PI * frequency * ti)) t in
  Return (t, waveform)).

(** The dictionary [thermal_analysis] returns. *)
Record thermal : Type := Build_thermal {
  ambient_temperature : R;
  junction_temperature : R;
  temperature_rise : R;
  thermal_resistance : R
}.

(** [thermal_analysis(output_power, ambient_temp)] *)
Definition thermal_analysis (self : SSTAnalyzer) (output_power ambient_temp : R)
    : result thermal :=
  rbind (calculate_power_losses self output_power) (fun losses =>
  let thermal_resistance := 0.5 in
  let temp_rise := total_loss losses * thermal_resistance in
  let junction_temp := ambient_temp + temp_rise in
  Return (Build_thermal ambient_temp junction_temp temp_rise thermal_resistance)).

End SST.


(** * Vocabulary of the statements *)

(** What links the locals of the search: [phi] and [max_deltaP] are those of
    the current [Lmin]. *)
Definition search_invariant (P_min fsw n V1 V2 d : R) (st : search_state) : Prop :=
  0 < st_Lmin st
  /\ st_phi st = select_root (- P_min * fsw * st_Lmin st / n / V1 / V2)
  /\ st_max_deltaP st = resolution_at P_min fsw n V1 V2 d (st_Lmin st).

(** What the first half of the routine returns, for positive arguments. *)
Definition bounds_spec (P V1 V2 fsw f_clk n resolution_percentage : R)
    (L0 : R) (j : nat) (b : bounds) : Prop :=
  b_Ts b = 1 / fsw
  /\ b_P_min b = 0.5 * P
  /\ b_phase_shift_min b = 1 / f_clk / (1 / fsw)
  /\ b_Lmin b = L0 * 1.0001 ^ j
  /\ b_phi b = select_root (- (0.5 * P) * fsw * b_Lmin b / n / V1 / V2)
  /\ b_max_deltaP b
     = resolution_at (0.5 * P) fsw n V1 V2 (b_phase_shift_min b) (b_Lmin b)
  /\ b_max_deltaP b <= resolution_percentage * P
  /\ (forall i, (i < j)%nat ->
        resolution_percentage * P
        < resolution_at (0.5 * P) fsw n V1 V2 (b_phase_shift_min b)
            (L0 * 1.0001 ^ i))
  /\ b_limiter b = (if Nat.eqb j 0 then ZVS_condition_at_minimum_power
                    else resolution_requirement)
  /\ b_Lmax b = n * V1 * V2 * 0.25 * (1 - 2 * 0.25) / (P * fsw)
  /\ b_min_deltaP b
     = resolution_step n V1 V2 phi_max (b_phase_shift_min b) fsw (b_Lmax b).

(** Figures and [plt.show]: what the sweeps leave in the log. *)
Definition is_plot (e : event) : bool :=
  match e with
  | Figure_resolution _ _ | Figure_power _ _ | Plt_show _ => true
  | _ => false
  end.

(** An outcome that is not a loop out of fuel. *)
Definition finished {A : Type} (o : outcome A) : Prop := o <> OutOfFuel.

(** A computation without loops and plots: it returns or raises, and appends
    no figure to the log. *)
Definition quiet {A : Type} (m : M A) : Prop :=
  forall log, exists out added,
    m log = (out, log ++ added)
    /\ finished out
    /\ existsb is_plot added = false.

(** What a returned dictionary says about the operating point. *)
Definition characteristics_spec (P V1 V2 fsw n : R) (b : bounds) (Ltot : R)
    (r : sizing_result) : Prop :=
  res_Lmin r = b_Lmin b
  /\ res_Lmax r = b_Lmax b
  /\ res_Ltot r = Ltot
  /\ solve_phase_shift P fsw Ltot n V1 V2 = Ok (res_phi r)
  /\ res_resolution r
     = np_resolution_step n V1 V2 (res_phi r) (b_phase_shift_min b) fsw Ltot
  /\ exists cd,
       rms_and_conduction (res_phi r) V1 V2 n fsw Ltot = Ok cd
       /\ res_I_pri_RMS r = I_pri_RMS cd
       /\ res_I_sec_RMS r = I_sec_RMS cd
       /\ res_total_Pcond r = total_Pcond cd
       /\ res_efficiency r
          = np_div (np_map (fun t => P - t) (total_Pcond cd)) P.

(** The arguments after the defaults are filled in. *)
Definition rated_P (args : sizing_args) : R := default 1e3 (arg_P args).

Definition given_V1 (args : sizing_args) : R := default 720 (arg_V1 args).

Definition given_V2 (args : sizing_args) : R := default 40 (arg_V2 args).

Definition given_fsw (args : sizing_args) : R := default 100e3 (arg_fsw args).

Definition given_f_clk (args : sizing_args) : R := default 250e6 (arg_f_clk args).

Definition given_Llk (args : sizing_args) : R := default 10e-6 (arg_Llk args).

Definition given_n (args : sizing_args) : R := default 15 (arg_n args).

Definition given_resolution (args : sizing_args) : R :=
  default 0.025 (arg_resolution_percentage args).

Definition positive_args (args : sizing_args) : Prop :=
  0 < rated_P args /\ 0 < given_V1 args /\ 0 < given_V2 args
  /\ 0 < given_fsw args /\ 0 < given_f_clk args /\ 0 < given_n args
  /\ 0 < given_resolution args.

(** The inductance the manual selection ends with. *)
Definition selected (py_float : string -> option R) (Ltot : option R)
    (stdin : input_result) (Lmin Lmax : R) : R :=
  match Ltot with
  | Some l => l
  | None =>
      match stdin with
      | Entered text =>
          match py_float text with
          | Some l => l
          | None => (Lmin + Lmax) / 2
          end
      | EOFError | KeyboardInterrupt => (Lmin + Lmax) / 2
      end
  end.

(** An inductance given by hand, as an argument or at the prompt, is not zero. *)
Definition usable_selection (py_float : string -> option R) (Ltot : option R)
    (stdin : input_result) : Prop :=
  match Ltot with
  | Some l => l <> 0
  | None =>
      match stdin with
      | Entered text =>
          match py_float text with
          | Some l => l <> 0
          | None => True
          end
      | EOFError | KeyboardInterrupt => True
      end
  end.


(** The RMS current at [phi = 1/4]. *)
Definition quarter_rms (V1 V2 n fsw L : R) : R :=
  1 / (2 * fsw * L) * sqrt ((V1 ^ 2 + n ^ 2 * V2 ^ 2) / 12).

(** The number typed by hand, as the argument [Ltot] or at the prompt. *)
Definition manual_selection (py_float : string -> option R) (Ltot : option R)
    (stdin : input_result) : option R :=
  match Ltot with
  | Some l => Some l
  | None =>
      match stdin with
      | Entered text => py_float text
      | EOFError | KeyboardInterrupt => None
      end
  end.



(** * Properties *)

(** ** Evaluation lemmas for the primitives *)

Lemma truediv_ok (x y : R) : y <> 0 -> truediv x y = Ok (x / y).
Proof.
  intros Hy. unfold truediv. destruct (Req_dec_T y 0) as [E | _]; [contradiction | reflexivity].
Qed.

Lemma truediv_zero (x : R) : truediv x 0 = Raise ZeroDivisionError.
Proof.
  unfold truediv. destruct (Req_dec_T 0 0) as [_ | N]; [reflexivity | now destruct N].
Qed.

Lemma np_div_finite (x y : R) : y <> 0 -> np_div (Finite x) y = Finite (x / y).
Proof.
  intros Hy. simpl. destruct (Req_dec_T y 0) as [E | _]; [contradiction | reflexivity].
Qed.

Lemma np_sqrt_finite (x : R) : 0 <= x -> np_sqrt x = Finite (sqrt x).
Proof.
  intros Hx. unfold np_sqrt. destruct (Rlt_dec x 0) as [N | _]; [lra | reflexivity].
Qed.

Lemma np_sqrt_negative (x : R) : x < 0 -> np_sqrt x = NonFinite.
Proof.
  intros Hx. unfold np_sqrt. destruct (Rlt_dec x 0) as [_ | N]; [reflexivity | lra].
Qed.

Lemma quadratic_c_ok (P fsw L n V1 V2 : R) :
  n <> 0 -> V1 <> 0 -> V2 <> 0 ->
  quadratic_c P fsw L n V1 V2 = Ok (- P * fsw * L / n / V1 / V2).
Proof.
  intros Hn H1 H2. unfold quadratic_c.
  rewrite (truediv_ok _ n Hn). simpl.
  rewrite (truediv_ok _ V1 H1). simpl.
  now rewrite (truediv_ok _ V2 H2).
Qed.

(** The coefficient [c] in the form the specification writes it. *)
Lemma quadratic_c_closed_form (P fsw L n V1 V2 : R) :
  n <> 0 -> V1 <> 0 -> V2 <> 0 ->
  - P * fsw * L / n / V1 / V2 = - (P * fsw * L / (n * V1 * V2)).
Proof. intros. field. repeat split; assumption. Qed.

(** ** The two roots *)

Lemma np_roots_real (c : R) :
  0 <= discriminant c ->
  np_roots (-2) 1 c
  = (Complex ((1 + sqrt (discriminant c)) / 4) 0,
     Complex ((1 - sqrt (discriminant c)) / 4) 0).
Proof.
  intros Hd. unfold np_roots, discriminant in *. cbv zeta.
  replace (Rabs (2 * -2)) with 4 by (rewrite Rabs_left; lra).
  destruct (Rle_dec 0 (1 * 1 - 4 * -2 * c)) as [_ | N]; [| contradiction].
  destruct (Rle_dec 0 (- (1) / (2 * -2))) as [_ | N]; [| exfalso; lra].
  f_equal; f_equal; field.
Qed.

Lemma np_roots_complex (c : R) :
  discriminant c < 0 ->
  np_roots (-2) 1 c
  = (Complex (1 / 4) (sqrt (- discriminant c) / 4),
     Complex (1 / 4) (- (sqrt (- discriminant c) / 4))).
Proof.
  intros Hd. unfold np_roots, discriminant in *. cbv zeta.
  replace (Rabs (2 * -2)) with 4 by (rewrite Rabs_left; lra).
  destruct (Rle_dec 0 (1 * 1 - 4 * -2 * c)) as [N | _]; [lra |].
  f_equal; f_equal; field.
Qed.

(** Python's [min] of two numbers is the smaller one, in either order. *)
Lemma min2_Rmin (x y : R) : min2 (x, y) = Rmin x y.
Proof.
  unfold min2. simpl. destruct (Rlt_dec y x) as [H | H].
  - rewrite Rmin_right; lra.
  - rewrite Rmin_left; lra.
Qed.

Lemma select_root_real (c : R) :
  0 <= discriminant c -> select_root c = (1 - sqrt (discriminant c)) / 4.
Proof.
  intros Hd. unfold select_root. cbv zeta. rewrite (np_roots_real c Hd).
  unfold np_real. simpl fst. simpl snd. simpl re. rewrite min2_Rmin.
  pose proof (sqrt_pos (discriminant c)) as Hs.
  rewrite Rmin_right; [reflexivity | lra].
Qed.

Lemma select_root_complex (c : R) :
  discriminant c < 0 -> select_root c = 1 / 4.
Proof.
  intros Hd. unfold select_root. cbv zeta. rewrite (np_roots_complex c Hd).
  unfold np_real. simpl fst. simpl snd. simpl re. rewrite min2_Rmin.
  apply Rmin_left. lra.
Qed.

(** The selected root solves [-2 phi^2 + phi + c = 0] when there is a real root. *)
Lemma select_root_is_root (c : R) :
  0 <= discriminant c ->
  -2 * select_root c ^ 2 + select_root c + c = 0.
Proof.
  intros Hd. rewrite (select_root_real c Hd).
  pose proof (sqrt_sqrt _ Hd) as Hs. unfold discriminant in *.
  set (s := sqrt (1 * 1 - 4 * -2 * c)) in *. nra.
Qed.

(** [1 - 4 phi] is the square root of the discriminant, cut off at zero. *)
Lemma select_root_slack (c : R) :
  1 - 4 * select_root c
  = if Rle_dec 0 (discriminant c) then sqrt (discriminant c) else 0.
Proof.
  destruct (Rle_dec 0 (discriminant c)) as [Hd | Hd].
  - rewrite (select_root_real c Hd). field.
  - rewrite select_root_complex; lra.
Qed.

Lemma select_root_le_quarter (c : R) : select_root c <= 1 / 4.
Proof.
  pose proof (select_root_slack c) as H.
  destruct (Rle_dec 0 (discriminant c)).
  - pose proof (sqrt_pos (discriminant c)). lra.
  - lra.
Qed.

Lemma select_root_nonneg (c : R) : c <= 0 -> 0 <= select_root c.
Proof.
  intros Hc. destruct (Rle_dec 0 (discriminant c)) as [Hd | Hd].
  - rewrite (select_root_real c Hd).
    assert (sqrt (discriminant c) <= 1).
    { rewrite <- sqrt_1. apply sqrt_le_1_alt. unfold discriminant. lra. }
    lra.
  - rewrite select_root_complex; lra.
Qed.

Lemma power_transfer_of_root (P fsw L n V1 V2 phi : R) :
  n <> 0 -> V1 <> 0 -> V2 <> 0 -> fsw <> 0 -> L <> 0 ->
  -2 * phi ^ 2 + phi + (- P * fsw * L / n / V1 / V2) = 0 ->
  power_transfer n V1 V2 phi fsw L = P.
Proof.
  intros Hn H1 H2 Hf HL Hroot. unfold power_transfer.
  assert (Hphi : phi * (1 - 2 * phi) = P * fsw * L / n / V1 / V2).
  { replace (- P * fsw * L / n / V1 / V2)
      with (- (P * fsw * L / n / V1 / V2)) in Hroot by (field; auto).
    lra. }
  replace (n * V1 * V2 * phi * (1 - 2 * phi))
    with (n * V1 * V2 * (phi * (1 - 2 * phi))) by ring.
  rewrite Hphi. field. auto.
Qed.

(** ** C1: the round trip through the power equation *)

(** C1.  For positive [P], [V1], [V2], [n], [fsw], [L] whose quadratic
    [-2 phi^2 + phi - P fsw L / (n V1 V2) = 0] has a non-negative
    discriminant, the solver returns a phase shift [phi], and the power
    equation evaluated at that [phi] gives [P] back. *)
Theorem phase_shift_round_trip (P V1 V2 n fsw L : R) :
  0 < P -> 0 < V1 -> 0 < V2 -> 0 < n -> 0 < fsw -> 0 < L ->
  0 <= 1 - 8 * (P * fsw * L / (n * V1 * V2)) ->
  exists phi,
    solve_phase_shift P fsw L n V1 V2 = Ok phi
    /\ power_transfer n V1 V2 phi fsw L = P.
Proof.
  intros HP H1 H2 Hn Hf HL Hd.
  assert (Hn0 : n <> 0) by lra. assert (H10 : V1 <> 0) by lra.
  assert (H20 : V2 <> 0) by lra.
  exists (select_root (- P * fsw * L / n / V1 / V2)). split.
  - unfold solve_phase_shift. now rewrite quadratic_c_ok.
  - apply power_transfer_of_root; try lra.
    apply select_root_is_root. unfold discriminant.
    rewrite quadratic_c_closed_form by assumption. lra.
Qed.

Lemma phase_shift_round_trip_witness :
  exists phi,
    solve_phase_shift 1 1 (3 / 32) 1 1 1 = Ok phi
    /\ power_transfer 1 1 1 phi 1 (3 / 32) = 1.
Proof.
  apply (phase_shift_round_trip 1 1 1 1 1 (3 / 32)); lra.
Defined.

(** ** C6: the smaller root *)

(** C6.  When the quadratic has real roots (discriminant not negative),
    [np.roots] returns the two real solutions of [-2 x^2 + x + c = 0], the
    larger one first, and the solver returns the smaller of them, which is
    strictly smaller than the other when the discriminant is positive.  The
    selection is the work of [min]: it picks the smaller root in whichever
    order the two are listed. *)
Theorem solver_selects_smaller_root (P fsw L n V1 V2 c : R) :
  quadratic_c P fsw L n V1 V2 = Ok c ->
  0 <= discriminant c ->
  exists r1 r2,
    np_roots (-2) 1 c = (Complex r1 0, Complex r2 0)
    /\ (forall x, -2 * x ^ 2 + x + c = 0 <-> x = r1 \/ x = r2)
    /\ r2 <= r1
    /\ solve_phase_shift P fsw L n V1 V2 = Ok (Rmin r1 r2)
    /\ Rmin r1 r2 <= r1 /\ Rmin r1 r2 <= r2
    /\ (0 < discriminant c -> Rmin r1 r2 < Rmax r1 r2)
    /\ min2 (np_real (Complex r1 0, Complex r2 0)) = Rmin r1 r2
    /\ min2 (np_real (Complex r2 0, Complex r1 0)) = Rmin r1 r2.
Proof.
  intros Hc Hd.
  pose proof (sqrt_pos (discriminant c)) as Hs0.
  pose proof (sqrt_sqrt _ Hd) as Hss.
  exists ((1 + sqrt (discriminant c)) / 4), ((1 - sqrt (discriminant c)) / 4).
  split; [apply np_roots_real; assumption |].
  split.
  { intros x. unfold discriminant in *.
    set (s := sqrt (1 * 1 - 4 * -2 * c)) in *.
    split.
    - intros Hx.
      assert (Hf : (4 * x - 1 + s) * (4 * x - 1 - s) = 0) by nra.
      apply Rmult_integral in Hf. destruct Hf; [right | left]; lra.
    - intros [-> | ->]; nra. }
  split; [lra |].
  split.
  { unfold solve_phase_shift. rewrite Hc. simpl.
    rewrite (select_root_real c Hd). rewrite Rmin_right; [reflexivity | lra]. }
  split; [apply Rmin_l |]. split; [apply Rmin_r |].
  split.
  { intros Hpos. pose proof (sqrt_lt_R0 _ Hpos).
    rewrite Rmin_right, Rmax_left; lra. }
  unfold np_real. simpl fst. simpl snd. simpl re.
  rewrite !min2_Rmin. split; [reflexivity | apply Rmin_comm].
Qed.

Lemma solver_selects_smaller_root_witness :
  exists r1 r2,
    np_roots (-2) 1 (- (3 / 32)) = (Complex r1 0, Complex r2 0)
    /\ (forall x, -2 * x ^ 2 + x + - (3 / 32) = 0 <-> x = r1 \/ x = r2)
    /\ r2 <= r1
    /\ solve_phase_shift 1 1 (3 / 32) 1 1 1 = Ok (Rmin r1 r2)
    /\ Rmin r1 r2 <= r1 /\ Rmin r1 r2 <= r2
    /\ (0 < discriminant (- (3 / 32)) -> Rmin r1 r2 < Rmax r1 r2)
    /\ min2 (np_real (Complex r1 0, Complex r2 0)) = Rmin r1 r2
    /\ min2 (np_real (Complex r2 0, Complex r1 0)) = Rmin r1 r2.
Proof.
  apply (solver_selects_smaller_root 1 1 (3 / 32) 1 1 1 (- (3 / 32))).
  - rewrite quadratic_c_ok by lra. f_equal. field.
  - unfold discriminant. lra.
Defined.

(** ** C2: a negative discriminant *)

(** C2, as the specification states it, fails: [P = fsw = L = n = V1 = V2 = 1]
    gives the discriminant [1 - 8 = -7], and the solver returns a value. *)
Lemma negative_discriminant_is_not_reported :
  ~ (forall P fsw L n V1 V2 : R,
        0 < P -> 0 < fsw -> 0 < L -> 0 < n -> 0 < V1 -> 0 < V2 ->
        1 - 8 * (P * fsw * L / (n * V1 * V2)) < 0 ->
        exists e, solve_phase_shift P fsw L n V1 V2 = Raise e).
Proof.
  intros H.
  destruct (H 1 1 1 1 1 1) as [e He]; try lra.
  unfold solve_phase_shift in He. rewrite quadratic_c_ok in He by lra.
  simpl in He. discriminate He.
Qed.

(** C2, amended.  With a negative discriminant the solver raises nothing:
    [np.roots] gives a complex-conjugate pair with a non-zero imaginary part,
    and the solver returns the real part the two roots share. *)
Theorem negative_discriminant_returns_real_part (P fsw L n V1 V2 : R) :
  0 < P -> 0 < fsw -> 0 < L -> 0 < n -> 0 < V1 -> 0 < V2 ->
  1 - 8 * (P * fsw * L / (n * V1 * V2)) < 0 ->
  exists c z1 z2,
    quadratic_c P fsw L n V1 V2 = Ok c
    /\ np_roots (-2) 1 c = (z1, z2)
    /\ im z1 <> 0 /\ im z2 = - im z1 /\ re z2 = re z1
    /\ solve_phase_shift P fsw L n V1 V2 = Ok (re z1).
Proof.
  intros HP Hf HL Hn H1 H2 Hd.
  assert (Hn0 : n <> 0) by lra. assert (H10 : V1 <> 0) by lra.
  assert (H20 : V2 <> 0) by lra.
  set (c := - P * fsw * L / n / V1 / V2).
  assert (Hdc : discriminant c < 0).
  { unfold discriminant, c. rewrite quadratic_c_closed_form by assumption. lra. }
  exists c, (Complex (1 / 4) (sqrt (- discriminant c) / 4)),
         (Complex (1 / 4) (- (sqrt (- discriminant c) / 4))).
  assert (Hs : 0 < sqrt (- discriminant c)) by (apply sqrt_lt_R0; lra).
  split; [now apply quadratic_c_ok |].
  split; [now apply np_roots_complex |].
  simpl. split; [lra |]. split; [lra |]. split; [reflexivity |].
  unfold solve_phase_shift. rewrite quadratic_c_ok by assumption. simpl.
  fold c. now rewrite select_root_complex.
Qed.

Lemma negative_discriminant_returns_real_part_witness :
  exists c z1 z2,
    quadratic_c 1 1 1 1 1 1 = Ok c
    /\ np_roots (-2) 1 c = (z1, z2)
    /\ im z1 <> 0 /\ im z2 = - im z1 /\ re z2 = re z1
    /\ solve_phase_shift 1 1 1 1 1 1 = Ok (re z1).
Proof.
  apply (negative_discriminant_returns_real_part 1 1 1 1 1 1); lra.
Defined.

(** ** C5: the closed-form upper bound *)

Lemma upper_bound_ok (P V1 V2 fsw n : R) :
  P <> 0 -> fsw <> 0 ->
  upper_bound P V1 V2 fsw n
  = Ok (n * V1 * V2 * 0.25 * (1 - 2 * 0.25) / (P * fsw)).
Proof.
  intros HP Hf. unfold upper_bound, phi_max. apply truediv_ok.
  now apply Rmult_integral_contrapositive_currified.
Qed.

(** C5.  The upper bound the routine computes is
    [n V1 V2 0.25 (1 - 2 0.25) / (P fsw)]; the power equation evaluated at
    [phi = 0.25] and that inductance gives [P], and it is the only inductance
    for which it does. *)
Theorem upper_bound_solves_power_equation (P V1 V2 fsw n : R) :
  0 < P -> 0 < V1 -> 0 < V2 -> 0 < fsw -> 0 < n ->
  exists Lmax,
    upper_bound P V1 V2 fsw n = Ok Lmax
    /\ Lmax = n * V1 * V2 * 0.25 * (1 - 2 * 0.25) / (P * fsw)
    /\ power_transfer n V1 V2 0.25 fsw Lmax = P
    /\ (forall L, L <> 0 -> power_transfer n V1 V2 0.25 fsw L = P -> L = Lmax).
Proof.
  intros HP H1 H2 Hf Hn.
  assert (HK : 0 < n * V1 * V2) by (repeat apply Rmult_lt_0_compat; assumption).
  exists (n * V1 * V2 * 0.25 * (1 - 2 * 0.25) / (P * fsw)).
  split; [apply upper_bound_ok; lra |]. split; [reflexivity |].
  split.
  - unfold power_transfer. field. repeat split; lra.
  - intros L HL HPL. unfold power_transfer in HPL.
    assert (E : n * V1 * V2 * 0.25 * (1 - 2 * 0.25) = P * fsw * L).
    { rewrite <- HPL. field. split; lra. }
    rewrite E. field. split; lra.
Qed.

Lemma upper_bound_solves_power_equation_witness :
  exists Lmax,
    upper_bound 1000 720 40 100e3 15 = Ok Lmax
    /\ Lmax = 15 * 720 * 40 * 0.25 * (1 - 2 * 0.25) / (1000 * 100e3)
    /\ power_transfer 15 720 40 0.25 100e3 Lmax = 1000
    /\ (forall L, L <> 0 -> power_transfer 15 720 40 0.25 100e3 L = 1000 -> L = Lmax).
Proof.
  apply (upper_bound_solves_power_equation 1000 720 40 100e3 15); lra.
Defined.

(** ** The resolution step in closed form *)

Lemma resolution_step_closed_form (n V1 V2 phi d fsw L : R) :
  fsw <> 0 -> L <> 0 ->
  resolution_step n V1 V2 phi d fsw L
  = n * V1 * V2 * d * (1 - 4 * phi + 2 * d) / (fsw * L).
Proof.
  intros Hf HL. unfold resolution_step, power_transfer. field. split; assumption.
Qed.

Lemma np_resolution_step_finite (n V1 V2 phi d fsw L : R) :
  fsw <> 0 -> L <> 0 ->
  np_resolution_step n V1 V2 phi d fsw L
  = Finite (resolution_step n V1 V2 phi d fsw L).
Proof.
  intros Hf HL. unfold np_resolution_step, np_power_transfer.
  rewrite !np_div_finite by assumption. reflexivity.
Qed.

Section Resolution.

Variables P fsw n V1 V2 d : R.
Hypothesis P_pos : 0 < P.
Hypothesis fsw_pos : 0 < fsw.
Hypothesis n_pos : 0 < n.
Hypothesis V1_pos : 0 < V1.
Hypothesis V2_pos : 0 < V2.
Hypothesis d_pos : 0 < d.

Let K : R := n * V1 * V2.

Lemma K_pos : 0 < K.
Proof. unfold K. repeat apply Rmult_lt_0_compat; assumption. Qed.

Lemma c_nonpos (L : R) : 0 < L -> - P * fsw * L / n / V1 / V2 <= 0.
Proof.
  intros HL. rewrite quadratic_c_closed_form by lra.
  assert (0 < P * fsw * L / (n * V1 * V2)).
  { apply Rdiv_lt_0_compat; [| apply K_pos].
    repeat apply Rmult_lt_0_compat; assumption. }
  lra.
Qed.

(** The slack [1 - 4 phi] of the solved phase shift lies in [[0, 1]] and does
    not grow with [L]. *)
Lemma slack_bounds (L : R) :
  0 < L ->
  0 <= 1 - 4 * select_root (- P * fsw * L / n / V1 / V2) <= 1.
Proof.
  intros HL.
  pose proof (select_root_le_quarter (- P * fsw * L / n / V1 / V2)).
  pose proof (select_root_nonneg _ (c_nonpos L HL)). lra.
Qed.

Lemma c_decreasing (L1 L2 : R) :
  L1 <= L2 ->
  - P * fsw * L2 / n / V1 / V2 <= - P * fsw * L1 / n / V1 / V2.
Proof.
  intros HL. rewrite !quadratic_c_closed_form by lra.
  apply Ropp_le_contravar. unfold Rdiv.
  apply Rmult_le_compat_r.
  - left. apply Rinv_0_lt_compat, K_pos.
  - apply Rmult_le_compat_l; [| assumption].
    left. now apply Rmult_lt_0_compat.
Qed.

Lemma slack_decreasing (L1 L2 : R) :
  L1 <= L2 ->
  1 - 4 * select_root (- P * fsw * L2 / n / V1 / V2)
  <= 1 - 4 * select_root (- P * fsw * L1 / n / V1 / V2).
Proof.
  intros HL. pose proof (c_decreasing L1 L2 HL) as Hc.
  rewrite !select_root_slack.
  set (c1 := - P * fsw * L1 / n / V1 / V2) in *.
  set (c2 := - P * fsw * L2 / n / V1 / V2) in *.
  assert (Hd : discriminant c2 <= discriminant c1) by (unfold discriminant; lra).
  destruct (Rle_dec 0 (discriminant c2)) as [H2 | H2];
    destruct (Rle_dec 0 (discriminant c1)) as [H1 | H1].
  - now apply sqrt_le_1_alt.
  - lra.
  - apply sqrt_pos.
  - lra.
Qed.

(** Once [phi] is solved again at each [L], a larger [L] never gives a larger
    resolution step. *)
Lemma resolution_at_decreasing (L1 L2 : R) :
  0 < L1 -> L1 <= L2 ->
  resolution_at P fsw n V1 V2 d L2 <= resolution_at P fsw n V1 V2 d L1.
Proof.
  intros H1 H12. unfold resolution_at.
  rewrite !resolution_step_closed_form by lra.
  pose proof (slack_bounds L2 ltac:(lra)) as [Hs2 _].
  pose proof (slack_decreasing L1 L2 H12) as Hs.
  set (s1 := 1 - 4 * select_root (- P * fsw * L1 / n / V1 / V2)) in *.
  set (s2 := 1 - 4 * select_root (- P * fsw * L2 / n / V1 / V2)) in *.
  replace (1 - 4 * select_root (- P * fsw * L1 / n / V1 / V2) + 2 * d)
    with (s1 + 2 * d) by (unfold s1; ring).
  replace (1 - 4 * select_root (- P * fsw * L2 / n / V1 / V2) + 2 * d)
    with (s2 + 2 * d) by (unfold s2; ring).
  pose proof K_pos as HK. fold K.
  assert (Hnum : K * d * (s2 + 2 * d) <= K * d * (s1 + 2 * d)).
  { apply Rmult_le_compat_l; [| lra]. left. now apply Rmult_lt_0_compat. }
  assert (Hnum0 : 0 <= K * d * (s2 + 2 * d)).
  { apply Rmult_le_pos; [| lra]. left. now apply Rmult_lt_0_compat. }
  assert (Hden1 : 0 < fsw * L1) by now apply Rmult_lt_0_compat.
  assert (Hden : fsw * L1 <= fsw * L2) by (apply Rmult_le_compat_l; lra).
  apply Rle_trans with (K * d * (s2 + 2 * d) / (fsw * L1)).
  - unfold Rdiv. apply Rmult_le_compat_l; [assumption |].
    apply Rinv_le_contravar; assumption.
  - unfold Rdiv. apply Rmult_le_compat_r; [| assumption].
    left. now apply Rinv_0_lt_compat.
Qed.

(** The resolution step is at most [K d (1 + 2 d) / (fsw L)]. *)
Lemma resolution_at_bound (L : R) :
  0 < L ->
  resolution_at P fsw n V1 V2 d L <= K * d * (1 + 2 * d) / (fsw * L).
Proof.
  intros HL. unfold resolution_at.
  rewrite resolution_step_closed_form by lra.
  pose proof (slack_bounds L HL) as [_ Hs]. pose proof K_pos as HK. fold K.
  unfold Rdiv. apply Rmult_le_compat_r.
  - left. apply Rinv_0_lt_compat. now apply Rmult_lt_0_compat.
  - apply Rmult_le_compat_l; [| lra]. left. now apply Rmult_lt_0_compat.
Qed.

Lemma resolution_at_pos (L : R) :
  0 < L -> 0 < resolution_at P fsw n V1 V2 d L.
Proof.
  intros HL. unfold resolution_at.
  rewrite resolution_step_closed_form by lra.
  pose proof (slack_bounds L HL) as [Hs _]. pose proof K_pos as HK. fold K.
  apply Rdiv_lt_0_compat; [| now apply Rmult_lt_0_compat].
  apply Rmult_lt_0_compat; [now apply Rmult_lt_0_compat | lra].
Qed.

End Resolution.

(** ** The lower-bound search *)

Lemma solve_phase_shift_ok (P fsw L n V1 V2 : R) :
  n <> 0 -> V1 <> 0 -> V2 <> 0 ->
  solve_phase_shift P fsw L n V1 V2
  = Ok (select_root (- P * fsw * L / n / V1 / V2)).
Proof.
  intros Hn H1 H2. unfold solve_phase_shift.
  now rewrite quadratic_c_ok.
Qed.

(** More fuel does not change a result. *)
Lemma resolution_search_fuel (fuel extra : nat)
    (P_min fsw n V1 V2 d thr : R) (st st' : search_state) :
  resolution_search fuel P_min fsw n V1 V2 d thr st = Ok st' ->
  resolution_search (fuel + extra) P_min fsw n V1 V2 d thr st = Ok st'.
Proof.
  revert st. induction fuel as [| fuel IH]; intros st; simpl.
  - destruct (Rgt_dec (st_max_deltaP st) thr) as [G | G].
    + discriminate.
    + intros H. destruct extra; simpl;
        destruct (Rgt_dec (st_max_deltaP st) thr); try contradiction; assumption.
  - destruct (Rgt_dec (st_max_deltaP st) thr) as [G | G]; [| trivial].
    destruct (solve_phase_shift P_min fsw (st_Lmin st * 1.0001) n V1 V2);
      simpl; try discriminate.
    apply IH.
Qed.


Section Search.

Variables P_min fsw n V1 V2 d thr : R.
Hypothesis P_min_pos : 0 < P_min.
Hypothesis fsw_pos : 0 < fsw.
Hypothesis n_pos : 0 < n.
Hypothesis V1_pos : 0 < V1.
Hypothesis V2_pos : 0 < V2.
Hypothesis d_pos : 0 < d.
Hypothesis thr_pos : 0 < thr.

(** An inductance from which the resolution constraint certainly holds. *)
Let Lenough : R := n * V1 * V2 * d * (1 + 2 * d) / (fsw * thr).

Lemma enough_inductance (L : R) :
  0 < L -> Lenough <= L -> resolution_at P_min fsw n V1 V2 d L <= thr.
Proof.
  intros HL HB.
  eapply Rle_trans;
    [apply (resolution_at_bound P_min fsw n V1 V2 d); assumption |].
  assert (HK : 0 < n * V1 * V2 * d * (1 + 2 * d)).
  { apply Rmult_lt_0_compat; [| lra].
    apply Rmult_lt_0_compat; [| assumption].
    now apply K_pos. }
  unfold Lenough in HB.
  apply (Rmult_le_reg_r (fsw * L)); [now apply Rmult_lt_0_compat |].
  replace (n * V1 * V2 * d * (1 + 2 * d) / (fsw * L) * (fsw * L))
    with (n * V1 * V2 * d * (1 + 2 * d)) by (field; lra).
  apply (Rmult_le_compat_r (fsw * thr)) in HB;
    [| left; now apply Rmult_lt_0_compat].
  replace (n * V1 * V2 * d * (1 + 2 * d) / (fsw * thr) * (fsw * thr))
    with (n * V1 * V2 * d * (1 + 2 * d)) in HB by (field; lra).
  nra.
Qed.

(** The search started [k] steps below [Lenough] returns within [k]
    iterations, at the first candidate that meets the constraint. *)
Lemma resolution_search_returns (k : nat) (st : search_state) :
  search_invariant P_min fsw n V1 V2 d st ->
  Lenough <= st_Lmin st * 1.0001 ^ k ->
  exists st' j,
    resolution_search k P_min fsw n V1 V2 d thr st = Ok st'
    /\ search_invariant P_min fsw n V1 V2 d st'
    /\ st_max_deltaP st' <= thr
    /\ (j <= k)%nat
    /\ st_Lmin st' = st_Lmin st * 1.0001 ^ j
    /\ (forall i, (i < j)%nat ->
          thr < resolution_at P_min fsw n V1 V2 d (st_Lmin st * 1.0001 ^ i))
    /\ st_resolution_limited st'
       = (if Nat.eqb j 0 then st_resolution_limited st else true).
Proof.
  revert st. induction k as [| k IH]; intros st Inv HB.
  - destruct Inv as (HL & Hphi & Hd).
    assert (Hle : st_max_deltaP st <= thr).
    { rewrite Hd. apply enough_inductance; [assumption |]. simpl in HB. lra. }
    exists st, 0%nat. simpl.
    destruct (Rgt_dec (st_max_deltaP st) thr) as [G | _]; [lra |].
    repeat split; try assumption; try lra; try lia.
  - simpl. destruct (Rgt_dec (st_max_deltaP st) thr) as [G | G].
    + destruct Inv as (HL & Hphi & Hd).
      rewrite solve_phase_shift_ok by lra. simpl.
      set (st1 := SearchState (st_Lmin st * 1.0001)
                    (select_root (- P_min * fsw * (st_Lmin st * 1.0001) / n / V1 / V2))
                    (resolution_step n V1 V2
                       (select_root (- P_min * fsw * (st_Lmin st * 1.0001) / n / V1 / V2))
                       d fsw (st_Lmin st * 1.0001))
                    true).
      destruct (IH st1) as (st' & j & Hrun & Inv' & Hle & Hj & HLj & Hfirst & Hlim).
      { unfold search_invariant, st1. simpl. repeat split; try reflexivity. lra. }
      { unfold st1. simpl. simpl in HB. lra. }
      exists st', (S j). split; [exact Hrun |]. split; [exact Inv' |].
      split; [exact Hle |]. split; [lia |].
      split; [rewrite HLj; unfold st1; simpl; ring |].
      split.
      * intros [| i] Hi.
        -- simpl. rewrite Rmult_1_r. rewrite <- Hd. lra.
        -- specialize (Hfirst i ltac:(lia)). unfold st1 in Hfirst. simpl in Hfirst.
           simpl. now replace (st_Lmin st * (1.0001 * 1.0001 ^ i))
             with (st_Lmin st * 1.0001 * 1.0001 ^ i) by ring.
      * simpl. rewrite Hlim. unfold st1. simpl. now destruct (Nat.eqb j 0).
    + exists st, 0%nat.
      destruct Inv as (HL & Hphi & Hd).
      repeat split; try assumption; try lra; try lia.
Qed.

(** Some power of [1.0001] carries any positive start beyond [Lenough]. *)
Lemma enough_steps (L0 : R) :
  0 < L0 -> exists k, Lenough <= L0 * 1.0001 ^ k.
Proof.
  intros H0.
  destruct (Pow_x_infinity 1.0001) with (b := Lenough / L0) as [N HN].
  { rewrite Rabs_pos_eq; lra. }
  exists N. specialize (HN N (Nat.le_refl N)).
  rewrite Rabs_pos_eq in HN by (apply pow_le; lra).
  apply Rge_le in HN.
  apply (Rmult_le_compat_l L0) in HN; [| lra].
  replace (L0 * (Lenough / L0)) with Lenough in HN by (field; lra).
  exact HN.
Qed.

End Search.

(** ** The first half of the routine *)

(** Positivity of products, quotients and sums of positive numbers. *)
Ltac positivity :=
  unfold Rdiv;
  repeat first
    [ assumption
    | lra
    | apply Rmult_lt_0_compat
    | apply Rinv_0_lt_compat
    | apply Rplus_lt_0_compat
    | apply pow_lt ].

Lemma zvs_lower_bound_ok (P_min V1 V2 n Ts : R) :
  0 < P_min -> 0 < V1 -> 0 < V2 -> 0 < n -> 0 < Ts ->
  exists L0,
    zvs_lower_bound P_min V1 V2 n Ts = Ok L0
    /\ L0 = Coss_pri * (2 * Ts * V1
                        / (1 / n * (P_min / V2) * Ts + 8 * Coss_pri * V1)) ^ 2
    /\ 0 < L0.
Proof.
  intros HP H1 H2 Hn HT.
  assert (HC : 0 < Coss_pri) by (unfold Coss_pri; lra).
  assert (Hden : 0 < 1 / n * (P_min / V2) * Ts + 8 * Coss_pri * V1)
    by positivity.
  eexists. split; [| split; [reflexivity |]].
  - unfold zvs_lower_bound.
    rewrite (truediv_ok P_min V2) by lra. simpl.
    rewrite (truediv_ok 1 n) by lra. simpl.
    rewrite truediv_ok by lra. reflexivity.
  - apply Rmult_lt_0_compat; [assumption |].
    apply pow_lt. apply Rdiv_lt_0_compat; [| assumption]. positivity.
Qed.


Lemma compute_bounds_returns (P V1 V2 fsw f_clk n rp : R) :
  0 < P -> 0 < V1 -> 0 < V2 -> 0 < fsw -> 0 < f_clk -> 0 < n -> 0 < rp ->
  exists L0 k j b,
    zvs_lower_bound (0.5 * P) V1 V2 n (1 / fsw) = Ok L0
    /\ 0 < L0
    /\ (j <= k)%nat
    /\ bounds_spec P V1 V2 fsw f_clk n rp L0 j b
    /\ forall extra log,
         compute_bounds (k + extra) P V1 V2 fsw f_clk n rp log
         = (Ok b, log ++ [Stdout (Line_Lmin_ZVS L0)]).
Proof.
  intros HP H1 H2 Hf Hc Hn Hr.
  assert (HTs : 0 < 1 / fsw) by (apply Rdiv_lt_0_compat; lra).
  assert (HPm : 0 < 0.5 * P) by lra.
  assert (Hd : 0 < 1 / f_clk / (1 / fsw)).
  { apply Rdiv_lt_0_compat; [apply Rdiv_lt_0_compat; lra | assumption]. }
  assert (Hthr : 0 < rp * P) by now apply Rmult_lt_0_compat.
  destruct (zvs_lower_bound_ok (0.5 * P) V1 V2 n (1 / fsw)) as (L0 & HL0 & _ & HL0pos);
    try assumption.
  destruct (enough_steps fsw n V1 V2 (1 / f_clk / (1 / fsw)) (rp * P) L0 HL0pos)
    as [k Hk].
  set (st0 := SearchState L0
                (select_root (- (0.5 * P) * fsw * L0 / n / V1 / V2))
                (resolution_step n V1 V2
                   (select_root (- (0.5 * P) * fsw * L0 / n / V1 / V2))
                   (1 / f_clk / (1 / fsw)) fsw L0)
                false).
  destruct (resolution_search_returns (0.5 * P) fsw n V1 V2
              (1 / f_clk / (1 / fsw)) (rp * P) HPm Hf Hn H1 H2 Hd Hthr k st0)
    as (st & j & Hrun & (HLpos & Hphi & Hmax) & Hle & Hj & HLj & Hfirst & Hlim).
  { unfold search_invariant, st0. simpl. repeat split; try reflexivity. assumption. }
  { exact Hk. }
  assert (HLmax : 0 < n * V1 * V2 * 0.25 * (1 - 2 * 0.25) / (P * fsw)).
  { apply Rdiv_lt_0_compat; [| now apply Rmult_lt_0_compat].
    apply Rmult_lt_0_compat; [| lra]. apply Rmult_lt_0_compat; [| lra].
    now apply K_pos. }
  exists L0, k, j.
  eexists (Bounds (1 / fsw) (0.5 * P) (1 / f_clk / (1 / fsw))
             (st_Lmin st) (st_phi st) (st_max_deltaP st)
             (if st_resolution_limited st then resolution_requirement
              else ZVS_condition_at_minimum_power)
             (n * V1 * V2 * 0.25 * (1 - 2 * 0.25) / (P * fsw)) _).
  split; [exact HL0 |]. split; [exact HL0pos |]. split; [exact Hj |].
  split.
  - unfold bounds_spec. simpl.
    repeat split; try reflexivity; try assumption.
    + rewrite Hlim. unfold st0. simpl. now destruct (Nat.eqb j 0).
  - intros extra log.
    unfold compute_bounds, bind, lift, emit, ret.
    rewrite (truediv_ok 1 fsw) by lra.
    rewrite HL0.
    rewrite quadratic_c_ok by lra.
    rewrite (truediv_ok 1 f_clk) by lra. simpl obind.
    rewrite (truediv_ok (1 / f_clk) (1 / fsw)) by lra.
    fold st0.
    rewrite (resolution_search_fuel k extra _ _ _ _ _ _ _ _ _ Hrun).
    rewrite upper_bound_ok by lra.
    rewrite (truediv_ok _ fsw) by lra. simpl obind.
    rewrite (truediv_ok _ (n * V1 * V2 * 0.25 * (1 - 2 * 0.25) / (P * fsw))) by lra.
    simpl obind.
    rewrite (truediv_ok _ fsw) by lra. simpl obind.
    rewrite (truediv_ok _ (n * V1 * V2 * 0.25 * (1 - 2 * 0.25) / (P * fsw))) by lra.
    reflexivity.
Qed.

(** ** C7: does the lower-bound search terminate? *)

Section Binary64.
Import PrimFloat.
#[local] Set Warnings "-inexact-float".







End Binary64.

(** ** C4: the resolution step against the inductance *)

Lemma Irms_prim_phaseShift_returns (phi V1 V2 n fsw L : R) :
  fsw <> 0 -> L <> 0 ->
  exists i, Irms_prim_phaseShift phi V1 V2 n fsw L = Ok i.
Proof.
  intros Hf HL. unfold Irms_prim_phaseShift. cbv zeta.
  rewrite truediv_ok; [simpl; eauto |].
  apply Rmult_integral_contrapositive_currified; [lra | assumption].
Qed.

Lemma rms_and_conduction_returns (phi V1 V2 n fsw L : R) :
  fsw <> 0 -> L <> 0 ->
  exists cd, rms_and_conduction phi V1 V2 n fsw L = Ok cd.
Proof.
  intros Hf HL. unfold rms_and_conduction.
  destruct (Irms_prim_phaseShift_returns phi V1 V2 n fsw L Hf HL) as [i Hi].
  rewrite Hi. simpl. eauto.
Qed.

Lemma resolution_point_returns (power L fsw n V1 V2 d : R) :
  n <> 0 -> V1 <> 0 -> V2 <> 0 -> fsw <> 0 -> L <> 0 ->
  exists s,
    resolution_point power L fsw n V1 V2 d = Ok s
    /\ rs_L s = L
    /\ rs_phi s = select_root (- power * fsw * L / n / V1 / V2)
    /\ rs_resolution s = Finite (resolution_at power fsw n V1 V2 d L).
Proof.
  intros Hn H1 H2 Hf HL. unfold resolution_point.
  rewrite solve_phase_shift_ok by assumption. simpl.
  destruct (rms_and_conduction_returns
              (select_root (- power * fsw * L / n / V1 / V2)) V1 V2 n fsw L Hf HL)
    as [cd Hcd].
  rewrite Hcd. simpl. eexists. split; [reflexivity |]. simpl.
  repeat split. now rewrite np_resolution_step_finite.
Qed.

(** C4.  With the power, [V1], [V2], [n], [fsw] and the smallest phase-shift
    increment fixed (all positive), the loop body of [ploss_vs_resolution]
    returns at every positive inductance, its resolution step is a finite
    number, and at a larger inductance the step is not larger. *)
Theorem resolution_step_weakly_decreasing (power fsw n V1 V2 phase_shift_min L1 L2 : R) :
  0 < power -> 0 < fsw -> 0 < n -> 0 < V1 -> 0 < V2 -> 0 < phase_shift_min ->
  0 < L1 -> L1 <= L2 ->
  exists s1 s2 r1 r2,
    resolution_point power L1 fsw n V1 V2 phase_shift_min = Ok s1
    /\ resolution_point power L2 fsw n V1 V2 phase_shift_min = Ok s2
    /\ rs_resolution s1 = Finite r1
    /\ rs_resolution s2 = Finite r2
    /\ r2 <= r1.
Proof.
  intros HP Hf Hn H1 H2 Hd HL1 HL12.
  destruct (resolution_point_returns power L1 fsw n V1 V2 phase_shift_min)
    as (s1 & Hs1 & _ & _ & Hr1); try lra.
  destruct (resolution_point_returns power L2 fsw n V1 V2 phase_shift_min)
    as (s2 & Hs2 & _ & _ & Hr2); try lra.
  exists s1, s2, (resolution_at power fsw n V1 V2 phase_shift_min L1),
    (resolution_at power fsw n V1 V2 phase_shift_min L2).
  repeat split; try assumption.
  now apply resolution_at_decreasing.
Qed.

Lemma resolution_step_weakly_decreasing_witness :
  exists s1 s2 r1 r2,
    resolution_point 1000 100e-6 100e3 15 720 40 (100e3 / 250e6) = Ok s1
    /\ resolution_point 1000 101e-6 100e3 15 720 40 (100e3 / 250e6) = Ok s2
    /\ rs_resolution s1 = Finite r1
    /\ rs_resolution s2 = Finite r2
    /\ r2 <= r1.
Proof.
  apply (resolution_step_weakly_decreasing 1000 100e3 15 720 40 (100e3 / 250e6)
           100e-6 101e-6); lra.
Defined.

(** ** Reasoning about the log *)

Lemma bind_ok_inv {A B : Type} (m : M A) (f : A -> M B) (log log' : list event) (b : B) :
  bind m f log = (Ok b, log') ->
  exists a log1, m log = (Ok a, log1) /\ f a log1 = (Ok b, log').
Proof.
  unfold bind. destruct (m log) as [[a | e |] log1]; intros H.
  - now exists a, log1.
  - discriminate (f_equal fst H).
  - discriminate (f_equal fst H).
Qed.

Lemma bind_run {A B : Type} (m : M A) (f : A -> M B) (log log1 : list event) (a : A) :
  m log = (Ok a, log1) -> bind m f log = f a log1.
Proof. intros H. unfold bind. now rewrite H. Qed.




Lemma finished_truediv (x y : R) : finished (truediv x y).
Proof. unfold finished, truediv. destruct (Req_dec_T y 0); discriminate. Qed.

Lemma finished_obind {A B : Type} (o : outcome A) (f : A -> outcome B) :
  finished o -> (forall a, finished (f a)) -> finished (obind o f).
Proof.
  unfold finished. intros Ho Hf. destruct o; simpl; [apply Hf | discriminate | now destruct Ho].
Qed.

Lemma finished_Ok {A : Type} (a : A) : finished (Ok a).
Proof. discriminate. Qed.

Ltac finished :=
  repeat first
    [ apply finished_truediv
    | apply finished_Ok
    | apply finished_obind; [| intros ? ] ].

Lemma finished_solve_phase_shift (P fsw L n V1 V2 : R) :
  finished (solve_phase_shift P fsw L n V1 V2).
Proof. unfold solve_phase_shift, quadratic_c. finished. Qed.

Lemma finished_rms_and_conduction (phi V1 V2 n fsw L : R) :
  finished (rms_and_conduction phi V1 V2 n fsw L).
Proof. unfold rms_and_conduction, Irms_prim_phaseShift. cbv zeta. finished. Qed.

Lemma quiet_ret {A : Type} (a : A) : quiet (ret a).
Proof.
  intros log. exists (Ok a), []. unfold ret. rewrite app_nil_r.
  repeat split. discriminate.
Qed.

Lemma quiet_emit (e : event) : is_plot e = false -> quiet (emit e).
Proof.
  intros He log. exists (Ok tt), [e]. unfold emit. simpl. rewrite He.
  repeat split. discriminate.
Qed.

Lemma quiet_lift {A : Type} (o : outcome A) : finished o -> quiet (lift o).
Proof.
  intros Ho log. exists o, []. unfold lift. rewrite app_nil_r. repeat split. exact Ho.
Qed.

Lemma quiet_bind {A B : Type} (m : M A) (f : A -> M B) :
  quiet m -> (forall a, quiet (f a)) -> quiet (bind m f).
Proof.
  intros Hm Hf log. destruct (Hm log) as (out & added & Hrun & Hout & Hadd).
  unfold bind. rewrite Hrun. destruct out as [a | e |].
  - destruct (Hf a (log ++ added)) as (out' & added' & Hrun' & Hout' & Hadd').
    exists out', (added ++ added'). rewrite app_assoc. repeat split; try assumption.
    rewrite existsb_app, Hadd, Hadd'. reflexivity.
  - exists (Raise e), added. repeat split; try assumption. discriminate.
  - now destruct Hout.
Qed.

Ltac quiet :=
  repeat first
    [ apply quiet_ret
    | apply quiet_emit; reflexivity
    | apply quiet_lift
    | apply quiet_bind; [| intros ? ] ].

Lemma quiet_select_inductance (py_float : string -> option R)
    (Ltot : option R) (stdin : input_result) (Lmin Lmax : R) :
  quiet (select_inductance py_float Ltot stdin Lmin Lmax).
Proof.
  unfold select_inductance. apply quiet_bind.
  - destruct Ltot as [l |]; [apply quiet_ret |].
    apply quiet_bind; [apply quiet_emit; reflexivity | intros _].
    destruct stdin as [text | |]; [destruct (py_float text) |..]; quiet.
  - intros l. apply quiet_bind; [| intros _; apply quiet_ret].
    destruct (Rlt_dec l Lmin); [quiet |]. destruct (Rgt_dec l Lmax); quiet.
Qed.

Lemma quiet_design_characteristics (P V1 V2 fsw Llk n : R) (b : bounds) (Ltot : R) :
  quiet (design_characteristics P V1 V2 fsw Llk n b Ltot).
Proof.
  unfold design_characteristics. cbv zeta.
  quiet; try apply finished_solve_phase_shift;
    try apply finished_rms_and_conduction; finished.
Qed.

(** [select_inductance] always returns. *)
Lemma select_inductance_returns (py_float : string -> option R)
    (Ltot : option R) (stdin : input_result) (Lmin Lmax : R) (log : list event) :
  exists l added,
    select_inductance py_float Ltot stdin Lmin Lmax log = (Ok l, log ++ added)
    /\ existsb is_plot added = false.
Proof.
  destruct (quiet_select_inductance py_float Ltot stdin Lmin Lmax log)
    as (out & added & Hrun & _ & Hadd).
  assert (Hok : exists l, out = Ok l).
  { revert Hrun. unfold select_inductance, bind, ret, emit.
    destruct Ltot as [l |];
      [| destruct stdin as [text | |]; [destruct (py_float text) |..]];
      match goal with
      | |- context [Rlt_dec ?l Lmin] =>
          destruct (Rlt_dec l Lmin); [| destruct (Rgt_dec l Lmax)]
      end; simpl; intros H; injection H as <- _; eauto. }
  destruct Hok as [l ->]. now exists l, added.
Qed.

(** The first half of the routine prints the closed-form estimate and
    nothing else. *)
Lemma compute_bounds_log (fuel : nat) (P V1 V2 fsw f_clk n rp : R)
    (log log1 : list event) (out : outcome bounds) :
  compute_bounds fuel P V1 V2 fsw f_clk n rp log = (out, log1) ->
  log1 = log \/ exists L0, log1 = log ++ [Stdout (Line_Lmin_ZVS L0)].
Proof.
  unfold compute_bounds, bind, lift, emit, ret. intros H.
  repeat match type of H with
         | context [match ?o with Ok _ => _ | Raise _ => _ | OutOfFuel => _ end] =>
             destruct o; simpl in H
         end;
    injection H as _ <-; eauto.
Qed.

(** ** C3: an infeasible design *)

(** C3.  When the first half of the routine has computed bounds with
    [Lmax < Lmin], the routine issues its warning, naming the limiting
    constraint, and evaluates no sweep: nothing after the bounds can run out
    of fuel, and no figure and no [plt.show] enters the log. *)
Theorem infeasible_design_is_signalled (py_float : string -> option R)
    (fuel : nat) (args : sizing_args) (stdin : input_result)
    (log0 log1 : list event) (b : bounds) :
  compute_bounds fuel
    (default 1e3 (arg_P args)) (default 720 (arg_V1 args))
    (default 40 (arg_V2 args)) (default 100e3 (arg_fsw args))
    (default 250e6 (arg_f_clk args)) (default 15 (arg_n args))
    (default 0.025 (arg_resolution_percentage args)) log0 = (Ok b, log1) ->
  b_Lmax b < b_Lmin b ->
  exists out added,
    dab_inductor_sizing_phaseShift py_float fuel args stdin log0
    = (out, log0 ++ added)
    /\ finished out
    /\ In (Warning (b_limiter b)) added
    /\ existsb is_plot added = false.
Proof.
  intros Hb Hlt.
  unfold dab_inductor_sizing_phaseShift. cbv zeta.
  rewrite (bind_run _ _ _ _ _ Hb).
  assert (Hrep : report_bounds fuel (default 1e3 (arg_P args))
                   (default 720 (arg_V1 args)) (default 40 (arg_V2 args))
                   (default 100e3 (arg_fsw args)) (default 15 (arg_n args)) b log1
                 = (Ok tt,
                    log1 ++ [Warning (b_limiter b);
                             Stdout (Line_max_L_not_achieved (b_Lmax b) phi_max
                                       (default 1e3 (arg_P args)) (b_limiter b));
                             Stdout (Line_resolution_full_power (b_min_deltaP b))])).
  { unfold report_bounds.
    destruct (Rlt_dec (b_Lmax b) (b_Lmin b)) as [_ | N]; [| contradiction].
    unfold bind, emit. simpl. now rewrite <- !app_assoc. }
  rewrite (bind_run _ _ _ _ _ Hrep).
  set (log2 := log1 ++ _).
  destruct (select_inductance_returns py_float (arg_Ltot args) stdin
              (b_Lmin b) (b_Lmax b) log2) as (l & added1 & Hsel & Hq1).
  rewrite (bind_run _ _ _ _ _ Hsel).
  destruct (quiet_design_characteristics
              (default 1e3 (arg_P args)) (default 720 (arg_V1 args))
              (default 40 (arg_V2 args)) (default 100e3 (arg_fsw args))
              (default 10e-6 (arg_Llk args)) (default 15 (arg_n args)) b l
              (log2 ++ added1)) as (out & added2 & Hdc & Hfin & Hq2).
  assert (Hlog1 : exists pre, log1 = log0 ++ pre /\ existsb is_plot pre = false).
  { destruct (compute_bounds_log _ _ _ _ _ _ _ _ _ _ _ Hb) as [-> | [L0 ->]].
    - exists []. now rewrite app_nil_r.
    - now exists [Stdout (Line_Lmin_ZVS L0)]. }
  destruct Hlog1 as (pre & Hpre & Hq0).
  unfold bind at 1. rewrite Hdc.
  destruct out as [r | e |].
  - unfold power_range_plot.
    destruct (Rge_dec (b_Lmax b) (b_Lmin b)) as [G | _]; [lra |].
    unfold bind, ret.
    exists (Ok r). eexists. split.
    + unfold log2. rewrite Hpre. rewrite <- !app_assoc. reflexivity.
    + split; [discriminate |]. split.
      * apply in_or_app. right. simpl. now left.
      * rewrite !existsb_app, Hq0, Hq1, Hq2. reflexivity.
  - exists (Raise e). eexists. split.
    + unfold log2. rewrite Hpre. rewrite <- !app_assoc. reflexivity.
    + split; [discriminate |]. split.
      * apply in_or_app. right. simpl. now left.
      * rewrite !existsb_app, Hq0, Hq1, Hq2. reflexivity.
  - now destruct Hfin.
Qed.

(** The first half of the routine when the closed-form estimate already
    meets the resolution constraint: the loop body never runs. *)
Lemma compute_bounds_zvs_limited (P V1 V2 fsw f_clk n rp L0 : R) :
  P <> 0 -> V1 <> 0 -> V2 <> 0 -> fsw <> 0 -> f_clk <> 0 -> n <> 0 ->
  zvs_lower_bound (0.5 * P) V1 V2 n (1 / fsw) = Ok L0 ->
  resolution_at (0.5 * P) fsw n V1 V2 (1 / f_clk / (1 / fsw)) L0 <= rp * P ->
  forall fuel log,
    compute_bounds fuel P V1 V2 fsw f_clk n rp log
    = (Ok (Bounds (1 / fsw) (0.5 * P) (1 / f_clk / (1 / fsw)) L0
             (select_root (- (0.5 * P) * fsw * L0 / n / V1 / V2))
             (resolution_at (0.5 * P) fsw n V1 V2 (1 / f_clk / (1 / fsw)) L0)
             ZVS_condition_at_minimum_power
             (n * V1 * V2 * 0.25 * (1 - 2 * 0.25) / (P * fsw))
             (resolution_step n V1 V2 phi_max (1 / f_clk / (1 / fsw)) fsw
                (n * V1 * V2 * 0.25 * (1 - 2 * 0.25) / (P * fsw)))),
       log ++ [Stdout (Line_Lmin_ZVS L0)]).
Proof.
  intros HP H1 H2 Hf Hc Hn HL0 Hres fuel log.
  assert (HTs : 1 / fsw <> 0).
  { unfold Rdiv. rewrite Rmult_1_l. now apply Rinv_neq_0_compat. }
  assert (HLmax : n * V1 * V2 * 0.25 * (1 - 2 * 0.25) / (P * fsw) <> 0).
  { unfold Rdiv. apply Rmult_integral_contrapositive_currified.
    - assert (HK : n * V1 * V2 <> 0)
        by (repeat apply Rmult_integral_contrapositive_currified; assumption).
      intros E. apply HK. lra.
    - apply Rinv_neq_0_compat.
      now apply Rmult_integral_contrapositive_currified. }
  unfold compute_bounds, bind, lift, emit, ret.
  rewrite (truediv_ok 1 fsw) by assumption. rewrite HL0.
  rewrite quadratic_c_ok by assumption.
  rewrite (truediv_ok 1 f_clk) by assumption. cbv beta iota delta [obind].
  rewrite (truediv_ok (1 / f_clk) (1 / fsw)) by assumption.
  assert (Hrun : forall st,
            st_max_deltaP st <= rp * P ->
            resolution_search fuel (0.5 * P) fsw n V1 V2 (1 / f_clk / (1 / fsw))
              (rp * P) st = Ok st).
  { intros st Hst. destruct fuel; simpl;
      (destruct (Rgt_dec (st_max_deltaP st) (rp * P)) as [G | G];
       [exfalso; lra | reflexivity]). }
  rewrite Hrun by exact Hres.
  rewrite upper_bound_ok by assumption.
  rewrite (truediv_ok _ fsw) by assumption. cbv beta iota.
  rewrite (truediv_ok _ (n * V1 * V2 * 0.25 * (1 - 2 * 0.25) / (P * fsw)))
    by assumption.
  cbv beta iota.
  rewrite (truediv_ok _ fsw) by assumption. cbv beta iota.
  rewrite (truediv_ok _ (n * V1 * V2 * 0.25 * (1 - 2 * 0.25) / (P * fsw)))
    by assumption.
  reflexivity.
Qed.

Lemma select_root_at_eighth : select_root (- (1 / 8)) = 1 / 4.
Proof.
  rewrite select_root_real by (unfold discriminant; lra).
  replace (discriminant (- (1 / 8))) with 0 by (unfold discriminant; lra).
  rewrite sqrt_0. lra.
Qed.

(** An infeasible design: [P = 16 Coss_pri] with unit voltages, turns ratio
    and switching frequency, [f_clk = 4] and [resolution_percentage = 1]. *)
Lemma infeasible_design_is_signalled_witness :
  exists out added,
    dab_inductor_sizing_phaseShift (fun _ => None) 0
      (SizingArgs (Some 1.472e-13) (Some 1) (Some 1) (Some 1) (Some 4) None
         (Some 1) (Some 1) None)
      EOFError []
    = (out, [] ++ added)
    /\ finished out
    /\ In (Warning ZVS_condition_at_minimum_power) added
    /\ existsb is_plot added = false.
Proof.
  assert (HL0 : zvs_lower_bound (0.5 * 1.472e-13) 1 1 1 (1 / 1)
                = Ok (1 / (64 * Coss_pri))).
  { unfold zvs_lower_bound.
    rewrite (truediv_ok _ 1) by lra. cbv beta iota delta [obind].
    rewrite (truediv_ok 1 1) by lra. cbv beta iota.
    rewrite truediv_ok by (unfold Coss_pri; lra). cbv beta iota.
    apply f_equal. unfold Coss_pri. lra. }
  assert (Hc : - (0.5 * 1.472e-13) * 1 * (1 / (64 * Coss_pri)) / 1 / 1 / 1
               = - (1 / 8)).
  { unfold Coss_pri. lra. }
  apply (infeasible_design_is_signalled (fun _ => None) 0
           (SizingArgs (Some 1.472e-13) (Some 1) (Some 1) (Some 1) (Some 4) None
              (Some 1) (Some 1) None)
           EOFError [] ([] ++ [Stdout (Line_Lmin_ZVS (1 / (64 * Coss_pri)))])
           (Bounds (1 / 1) (0.5 * 1.472e-13) (1 / 4 / (1 / 1)) (1 / (64 * Coss_pri))
              (select_root (- (0.5 * 1.472e-13) * 1 * (1 / (64 * Coss_pri)) / 1 / 1 / 1))
              (resolution_at (0.5 * 1.472e-13) 1 1 1 1 (1 / 4 / (1 / 1))
                 (1 / (64 * Coss_pri)))
              ZVS_condition_at_minimum_power
              (1 * 1 * 1 * 0.25 * (1 - 2 * 0.25) / (1.472e-13 * 1))
              (resolution_step 1 1 1 phi_max (1 / 4 / (1 / 1)) 1
                 (1 * 1 * 1 * 0.25 * (1 - 2 * 0.25) / (1.472e-13 * 1))))).
  - simpl default.
    apply compute_bounds_zvs_limited; try lra; [exact HL0 |].
    unfold resolution_at. rewrite Hc, select_root_at_eighth.
    unfold resolution_step, power_transfer, Coss_pri. lra.
  - simpl. unfold Coss_pri. lra.
Defined.

(** ** The second half of the routine *)

Lemma lift_ok_inv {A : Type} (o : outcome A) (log log' : list event) (a : A) :
  lift o log = (Ok a, log') -> o = Ok a /\ log' = log.
Proof. unfold lift. intros H. injection H as -> ->. now split. Qed.


Lemma design_characteristics_inv (P V1 V2 fsw Llk n : R) (b : bounds) (Ltot : R)
    (log log' : list event) (r : sizing_result) :
  design_characteristics P V1 V2 fsw Llk n b Ltot log = (Ok r, log') ->
  characteristics_spec P V1 V2 fsw n b Ltot r.
Proof.
  unfold design_characteristics. cbv zeta. intros H.
  apply bind_ok_inv in H. destruct H as (phi & l1 & Hphi & H).
  apply lift_ok_inv in Hphi. destruct Hphi as [Hphi _].
  apply bind_ok_inv in H. destruct H as (_ & l2 & _ & H).
  apply bind_ok_inv in H. destruct H as (_ & l3 & _ & H).
  apply bind_ok_inv in H. destruct H as (Pmax & l4 & _ & H).
  apply bind_ok_inv in H. destruct H as (_ & l5 & _ & H).
  apply bind_ok_inv in H. destruct H as (q & l6 & _ & H).
  apply bind_ok_inv in H. destruct H as (_ & l7 & _ & H).
  apply bind_ok_inv in H. destruct H as (cd & l8 & Hcd & H).
  apply lift_ok_inv in Hcd. destruct Hcd as [Hcd _].
  apply bind_ok_inv in H. destruct H as (_ & l9 & _ & H).
  apply bind_ok_inv in H. destruct H as (_ & l10 & _ & H).
  apply bind_ok_inv in H. destruct H as (_ & l11 & _ & H).
  unfold ret in H. injection H as <- _.
  unfold characteristics_spec. simpl.
  repeat split; try assumption. exists cd. repeat split. assumption.
Qed.

Lemma design_characteristics_returns (P V1 V2 fsw Llk n : R) (b : bounds) (Ltot : R) :
  n <> 0 -> V1 <> 0 -> V2 <> 0 -> fsw <> 0 -> Ltot <> 0 -> b_Ts b <> 0 ->
  exists r, forall log, exists added,
    design_characteristics P V1 V2 fsw Llk n b Ltot log = (Ok r, log ++ added)
    /\ existsb is_plot added = false.
Proof.
  intros Hn H1 H2 Hf HL HT.
  destruct (rms_and_conduction_returns
              (select_root (- P * fsw * Ltot / n / V1 / V2)) V1 V2 n fsw Ltot Hf HL)
    as [cd Hcd].
  eexists. intros log.
  destruct (quiet_design_characteristics P V1 V2 fsw Llk n b Ltot log)
    as (out & added & Hrun & _ & Hadd).
  exists added. split; [| exact Hadd].
  rewrite Hrun. apply (f_equal (fun o => (o, log ++ added))).
  revert Hrun. unfold design_characteristics. cbv zeta.
  unfold bind, lift, emit, ret.
  rewrite solve_phase_shift_ok by assumption.
  rewrite (truediv_ok _ fsw) by assumption. cbv beta iota delta [obind].
  rewrite (truediv_ok _ Ltot) by assumption.
  rewrite (truediv_ok _ (b_Ts b)) by assumption.
  rewrite Hcd.
  intros H. injection H as <- _. reflexivity.
Qed.

(** ** The sweeps return *)

Lemma nat_above (r : R) : exists k : nat, r < INR k.
Proof.
  exists (Z.to_nat (Z.max 0 (up r))).
  rewrite INR_IZR_INZ, Z2Nat.id by lia.
  destruct (archimed r) as [Hup _].
  apply Rlt_le_trans with (IZR (up r)); [lra |].
  apply IZR_le. lia.
Qed.

Lemma resolution_sweep_fuel (fuel extra : nat)
    (power L Lmax fsw n V1 V2 d : R) (s : list resolution_sample) :
  resolution_sweep fuel power L Lmax fsw n V1 V2 d = Ok s ->
  resolution_sweep (fuel + extra) power L Lmax fsw n V1 V2 d = Ok s.
Proof.
  revert L s. induction fuel as [| fuel IH]; intros L s; simpl.
  - destruct (Rle_dec L Lmax) as [G | G]; [discriminate |].
    intros H. destruct extra; simpl;
      (destruct (Rle_dec L Lmax); [contradiction | assumption]).
  - destruct (Rle_dec L Lmax) as [G | G]; [| trivial].
    destruct (resolution_point power L fsw n V1 V2 d); simpl; try discriminate.
    destruct (resolution_sweep fuel power (L + 1e-6) Lmax fsw n V1 V2 d) eqn:E;
      simpl; try discriminate.
    now rewrite (IH _ _ E).
Qed.

Lemma resolution_sweep_returns (power Lmax fsw n V1 V2 d : R) :
  n <> 0 -> V1 <> 0 -> V2 <> 0 -> fsw <> 0 ->
  forall (k : nat) (L : R),
    0 < L -> Lmax < L + INR k * 1e-6 ->
    exists s, resolution_sweep k power L Lmax fsw n V1 V2 d = Ok s.
Proof.
  intros Hn H1 H2 Hf. induction k as [| k IH]; intros L HL Hk.
  - simpl. destruct (Rle_dec L Lmax) as [G | G]; [| eauto].
    simpl in Hk. lra.
  - simpl. destruct (Rle_dec L Lmax) as [G | G]; [| eauto].
    destruct (resolution_point_returns power L fsw n V1 V2 d)
      as (s & -> & _); try assumption; try lra.
    destruct (IH (L + 1e-6)) as [rest ->]; [lra | |].
    + rewrite S_INR in Hk. lra.
    + simpl. eauto.
Qed.

Lemma ploss_vs_resolution_returns (power Lmin Lmax fsw n V1 V2 Ts d : R) :
  n <> 0 -> V1 <> 0 -> V2 <> 0 -> fsw <> 0 -> 0 < Lmin ->
  exists k s, forall extra,
    ploss_vs_resolution (k + extra) power Lmin Lmax fsw n V1 V2 Ts d = Ok s.
Proof.
  intros Hn H1 H2 Hf HL.
  destruct (nat_above ((Lmax - Lmin) / 1e-6)) as [k Hk].
  destruct (resolution_sweep_returns power Lmax fsw n V1 V2 d Hn H1 H2 Hf k Lmin HL)
    as [s Hs].
  { apply (Rmult_lt_compat_r 1e-6) in Hk; [| lra].
    replace ((Lmax - Lmin) / 1e-6 * 1e-6) with (Lmax - Lmin) in Hk by lra.
    lra. }
  exists k, s. intros extra. unfold ploss_vs_resolution.
  now apply resolution_sweep_fuel.
Qed.

Lemma power_point_returns (P : Z) (Ltot fsw n V1 V2 : R) :
  n <> 0 -> V1 <> 0 -> V2 <> 0 -> fsw <> 0 -> Ltot <> 0 ->
  exists s, power_point P Ltot fsw n V1 V2 = Ok s.
Proof.
  intros Hn H1 H2 Hf HL. unfold power_point.
  rewrite solve_phase_shift_ok by assumption. simpl.
  destruct (rms_and_conduction_returns
              (select_root (- IZR P * fsw * Ltot / n / V1 / V2)) V1 V2 n fsw Ltot
              Hf HL) as [cd ->].
  simpl. eauto.
Qed.

Lemma ploss_vs_P_returns (Pmin Pmax Ltot fsw n V1 V2 : R) :
  n <> 0 -> V1 <> 0 -> V2 <> 0 -> fsw <> 0 -> Ltot <> 0 ->
  exists s, ploss_vs_P Pmin Pmax Ltot fsw n V1 V2 = Ok s.
Proof.
  intros Hn H1 H2 Hf HL. unfold ploss_vs_P.
  induction (range (int Pmin) (int Pmax + 1)) as [| P Ps IH]; simpl; [eauto |].
  destruct (power_point_returns P Ltot fsw n V1 V2 Hn H1 H2 Hf HL) as [s ->].
  destruct IH as [rest ->]. simpl. eauto.
Qed.

(** ** The whole routine *)





Lemma selected_nonzero (py_float : string -> option R) (Ltot : option R)
    (stdin : input_result) (Lmin Lmax : R) :
  usable_selection py_float Ltot stdin -> 0 < Lmin -> 0 < Lmax ->
  selected py_float Ltot stdin Lmin Lmax <> 0.
Proof.
  unfold usable_selection, selected. intros Hu Hmin Hmax.
  destruct Ltot as [l |]; [assumption |].
  destruct stdin as [text | |]; [destruct (py_float text); [assumption |] | |]; lra.
Qed.

Lemma select_inductance_selected (py_float : string -> option R)
    (Ltot : option R) (stdin : input_result) (Lmin Lmax : R)
    (log log' : list event) (l : R) :
  select_inductance py_float Ltot stdin Lmin Lmax log = (Ok l, log') ->
  l = selected py_float Ltot stdin Lmin Lmax.
Proof.
  unfold select_inductance, selected, bind, ret, emit.
  destruct Ltot as [l0 |];
    [| destruct stdin as [text | |]; [destruct (py_float text) |..]];
    match goal with
    | |- context [Rlt_dec ?x Lmin] =>
        destruct (Rlt_dec x Lmin); [| destruct (Rgt_dec x Lmax)]
    end; simpl; intros H; injection H as <- _; reflexivity.
Qed.

Lemma bounds_spec_positive (P V1 V2 fsw f_clk n rp L0 : R) (j : nat) (b : bounds) :
  0 < P -> 0 < V1 -> 0 < V2 -> 0 < fsw -> 0 < n -> 0 < L0 ->
  bounds_spec P V1 V2 fsw f_clk n rp L0 j b ->
  0 < b_Lmin b /\ 0 < b_Lmax b /\ b_Ts b <> 0.
Proof.
  intros HP H1 H2 Hf Hn HL0 (HTs & _ & _ & HLmin & _ & _ & _ & _ & _ & HLmax & _).
  rewrite HLmin, HLmax, HTs. split; [| split].
  - apply Rmult_lt_0_compat; [assumption | apply pow_lt; lra].
  - positivity.
  - assert (0 < 1 / fsw) by positivity. lra.
Qed.

Lemma report_bounds_returns (P V1 V2 fsw n : R) (b : bounds) :
  n <> 0 -> V1 <> 0 -> V2 <> 0 -> fsw <> 0 -> 0 < b_Lmin b ->
  exists k, forall extra log, exists log',
    report_bounds (k + extra) P V1 V2 fsw n b log = (Ok tt, log').
Proof.
  intros Hn H1 H2 Hf HL. unfold report_bounds.
  destruct (Rlt_dec (b_Lmax b) (b_Lmin b)) as [Hlt | Hge].
  - exists 0%nat. intros extra log. cbv beta iota delta [bind emit]. eauto.
  - destruct (ploss_vs_resolution_returns P (b_Lmin b) (b_Lmax b) fsw n V1 V2
                (b_Ts b) (b_phase_shift_min b) Hn H1 H2 Hf HL) as (k1 & s1 & Hs1).
    destruct (ploss_vs_resolution_returns (b_P_min b) (b_Lmin b) (b_Lmax b) fsw n
                V1 V2 (b_Ts b) (b_phase_shift_min b) Hn H1 H2 Hf HL)
      as (k2 & s2 & Hs2).
    exists (k1 + k2)%nat. intros extra log.
    cbv beta iota delta [bind emit lift].
    pose proof (Hs1 (k2 + extra)%nat) as E1.
    replace (k1 + (k2 + extra))%nat with (k1 + k2 + extra)%nat in E1 by lia.
    pose proof (Hs2 (k1 + extra)%nat) as E2.
    replace (k2 + (k1 + extra))%nat with (k1 + k2 + extra)%nat in E2 by lia.
    rewrite E1, E2. eauto.
Qed.

Lemma power_range_plot_returns (P V1 V2 fsw n : R) (b : bounds) (Ltot : R)
    (log : list event) :
  n <> 0 -> V1 <> 0 -> V2 <> 0 -> fsw <> 0 -> Ltot <> 0 ->
  exists log', power_range_plot P V1 V2 fsw n b Ltot log = (Ok tt, log').
Proof.
  intros Hn H1 H2 Hf HL. unfold power_range_plot.
  destruct (Rge_dec (b_Lmax b) (b_Lmin b)); [| unfold ret; eauto].
  destruct (ploss_vs_P_returns (b_P_min b) P Ltot fsw n V1 V2 Hn H1 H2 Hf HL)
    as [s Hs].
  cbv beta iota delta [bind emit lift]. rewrite Hs. cbv beta iota. eauto.
Qed.

(** For positive arguments and a usable selection the routine returns once
    the fuel covers its three loops; the dictionary holds the bounds of the
    first half and the operating point of the selected inductance. *)
Lemma sizing_returns (py_float : string -> option R) (args : sizing_args)
    (stdin : input_result) :
  positive_args args ->
  usable_selection py_float (arg_Ltot args) stdin ->
  exists fuel L0 j b r,
    bounds_spec (rated_P args) (given_V1 args) (given_V2 args) (given_fsw args)
      (given_f_clk args) (given_n args) (given_resolution args) L0 j b
    /\ 0 < L0
    /\ characteristics_spec (rated_P args) (given_V1 args) (given_V2 args)
         (given_fsw args) (given_n args) b
         (selected py_float (arg_Ltot args) stdin (b_Lmin b) (b_Lmax b)) r
    /\ forall extra log, exists log',
         dab_inductor_sizing_phaseShift py_float (fuel + extra) args stdin log
         = (Ok r, log').
Proof.
  intros (HP & H1 & H2 & Hf & Hc & Hn & Hr) Hu.
  destruct (compute_bounds_returns (rated_P args) (given_V1 args) (given_V2 args)
              (given_fsw args) (given_f_clk args) (given_n args)
              (given_resolution args))
    as (L0 & k & j & b & _ & HL0 & _ & Hspec & Hcb); try assumption.
  destruct (bounds_spec_positive _ _ _ _ _ _ _ _ _ _ HP H1 H2 Hf Hn HL0 Hspec)
    as (HLmin & HLmax & HTs).
  destruct (report_bounds_returns (rated_P args) (given_V1 args) (given_V2 args)
              (given_fsw args) (given_n args) b) as [k' Hrep]; try lra.
  pose proof (selected_nonzero py_float (arg_Ltot args) stdin _ _ Hu HLmin HLmax)
    as Hsel0.
  set (l := selected py_float (arg_Ltot args) stdin (b_Lmin b) (b_Lmax b)) in *.
  destruct (design_characteristics_returns (rated_P args) (given_V1 args)
              (given_V2 args) (given_fsw args) (given_Llk args) (given_n args) b l)
    as (r & Hdc); try lra; try assumption.
  destruct (Hdc []) as (added0 & Hr0 & _).
  exists (k + k')%nat, L0, j, b, r.
  split; [exact Hspec |]. split; [exact HL0 |].
  split; [exact (design_characteristics_inv _ _ _ _ _ _ _ _ _ _ _ Hr0) |].
  intros extra log.
  unfold dab_inductor_sizing_phaseShift. cbv zeta.
  fold (rated_P args) (given_V1 args) (given_V2 args) (given_fsw args)
    (given_f_clk args) (given_Llk args) (given_n args) (given_resolution args).
  pose proof (Hcb (k' + extra)%nat log) as Hcb1.
  replace (k + (k' + extra))%nat with (k + k' + extra)%nat in Hcb1 by lia.
  rewrite (bind_run _ _ _ _ _ Hcb1).
  destruct (Hrep (k + extra)%nat (log ++ [Stdout (Line_Lmin_ZVS L0)])) as [log2 Hrep2].
  replace (k' + (k + extra))%nat with (k + k' + extra)%nat in Hrep2 by lia.
  rewrite (bind_run _ _ _ _ _ Hrep2).
  destruct (select_inductance_returns py_float (arg_Ltot args) stdin
              (b_Lmin b) (b_Lmax b) log2) as (l' & added1 & Hsel & _).
  rewrite (bind_run _ _ _ _ _ Hsel).
  assert (l' = l) as -> by exact (select_inductance_selected _ _ _ _ _ _ _ _ Hsel).
  destruct (Hdc (log2 ++ added1)) as (added2 & Hr' & _).
  rewrite (bind_run _ _ _ _ _ Hr').
  destruct (power_range_plot_returns (rated_P args) (given_V1 args) (given_V2 args)
              (given_fsw args) (given_n args) b l ((log2 ++ added1) ++ added2))
    as [log3 Hplot]; try lra; try assumption.
  rewrite (bind_run _ _ _ _ _ Hplot). unfold ret.
  now exists log3.
Qed.

Lemma sizing_inv (py_float : string -> option R) (fuel : nat) (args : sizing_args)
    (stdin : input_result) (log log' : list event) (r : sizing_result) :
  dab_inductor_sizing_phaseShift py_float fuel args stdin log = (Ok r, log') ->
  exists b log1,
    compute_bounds fuel (rated_P args) (given_V1 args) (given_V2 args)
      (given_fsw args) (given_f_clk args) (given_n args) (given_resolution args) log
    = (Ok b, log1)
    /\ characteristics_spec (rated_P args) (given_V1 args) (given_V2 args)
         (given_fsw args) (given_n args) b
         (selected py_float (arg_Ltot args) stdin (b_Lmin b) (b_Lmax b)) r.
Proof.
  unfold dab_inductor_sizing_phaseShift. cbv zeta.
  fold (rated_P args) (given_V1 args) (given_V2 args) (given_fsw args)
    (given_f_clk args) (given_Llk args) (given_n args) (given_resolution args).
  intros H.
  apply bind_ok_inv in H. destruct H as (b & log1 & Hb & H).
  apply bind_ok_inv in H. destruct H as (_ & log2 & _ & H).
  apply bind_ok_inv in H. destruct H as (l & log3 & Hsel & H).
  apply bind_ok_inv in H. destruct H as (r' & log4 & Hdc & H).
  apply bind_ok_inv in H. destruct H as (_ & log5 & _ & H).
  unfold ret in H. injection H as -> _.
  exists b, log1. split; [exact Hb |].
  rewrite <- (select_inductance_selected _ _ _ _ _ _ _ _ Hsel).
  exact (design_characteristics_inv _ _ _ _ _ _ _ _ _ _ _ Hdc).
Qed.

(** ** C9: the midpoint fallback *)



Lemma default_args_positive :
  positive_args (SizingArgs None None None None None None None None None).
Proof.
  unfold positive_args, rated_P, given_V1, given_V2, given_fsw, given_f_clk,
    given_n, given_resolution. simpl. repeat split; lra.
Qed.


(** ** C8: the secondary RMS current *)





(** ** C10: the phase shift of an undeliverable power *)


Lemma Irms_prim_phaseShift_quarter (V1 V2 n fsw L : R) :
  fsw <> 0 -> L <> 0 ->
  Irms_prim_phaseShift (1 / 4) V1 V2 n fsw L = Ok (Finite (quarter_rms V1 V2 n fsw L)).
Proof.
  intros Hf HL. unfold Irms_prim_phaseShift, quarter_rms. cbv zeta.
  rewrite truediv_ok
    by (apply Rmult_integral_contrapositive_currified; [lra | assumption]).
  cbv beta iota delta [obind].
  rewrite (Rabs_pos_eq (1 / 4)) by lra.
  match goal with
  | |- context [np_sqrt ?x] =>
      replace x with ((V1 ^ 2 + n ^ 2 * V2 ^ 2) / 12) by nra
  end.
  rewrite np_sqrt_finite; [reflexivity |].
  pose proof (pow2_ge_0 V1). pose proof (pow2_ge_0 (n * V2)).
  replace (n ^ 2 * V2 ^ 2) with ((n * V2) ^ 2) by ring. lra.
Qed.

(** C10.  For positive inputs whose discriminant is negative
    ([P fsw L / (n V1 V2) > 1/8]) the solver returns [phi = 1/4], and what is
    computed from it is computed at [1/4] without any error: the resolution
    step of the sweep, and in the second half of the routine the phase shift
    of the dictionary, its resolution step, RMS currents and conduction loss;
    the routine called with such an [Ltot] returns that dictionary. *)
Theorem negative_discriminant_gives_quarter (P V1 V2 n fsw L : R) :
  0 < P -> 0 < V1 -> 0 < V2 -> 0 < n -> 0 < fsw -> 0 < L ->
  1 - 8 * (P * fsw * L / (n * V1 * V2)) < 0 ->
  solve_phase_shift P fsw L n V1 V2 = Ok (1 / 4)
  /\ (forall d, exists s,
        resolution_point P L fsw n V1 V2 d = Ok s
        /\ rs_phi s = 1 / 4
        /\ rs_resolution s = Finite (resolution_step n V1 V2 (1 / 4) d fsw L))
  /\ (forall Llk b log, b_Ts b <> 0 ->
      exists r added,
        design_characteristics P V1 V2 fsw Llk n b L log = (Ok r, log ++ added)
        /\ res_phi r = 1 / 4
        /\ res_resolution r
           = Finite (resolution_step n V1 V2 (1 / 4) (b_phase_shift_min b) fsw L)
        /\ res_I_pri_RMS r = Finite (quarter_rms V1 V2 n fsw L)
        /\ res_I_sec_RMS r = Finite (quarter_rms V1 V2 n fsw L * n)
        /\ res_total_Pcond r
           = Finite (2 * Ron_pri * quarter_rms V1 V2 n fsw L ^ 2
                     + 2 * Ron_sec * (quarter_rms V1 V2 n fsw L * n) ^ 2))
  /\ (forall py_float args stdin,
        positive_args args ->
        rated_P args = P -> given_V1 args = V1 -> given_V2 args = V2 ->
        given_n args = n -> given_fsw args = fsw -> arg_Ltot args = Some L ->
        exists fuel r,
          (forall extra log, exists log',
              dab_inductor_sizing_phaseShift py_float (fuel + extra) args stdin log
              = (Ok r, log'))
          /\ res_Ltot r = L /\ res_phi r = 1 / 4
          /\ res_I_pri_RMS r = Finite (quarter_rms V1 V2 n fsw L)).
Proof.
  intros HP H1 H2 Hn Hf HL Hd.
  assert (Hroot : select_root (- P * fsw * L / n / V1 / V2) = 1 / 4).
  { apply select_root_complex. unfold discriminant.
    rewrite quadratic_c_closed_form by lra. lra. }
  assert (Hsolve : solve_phase_shift P fsw L n V1 V2 = Ok (1 / 4)).
  { rewrite solve_phase_shift_ok by lra. now rewrite Hroot. }
  assert (Hcd : rms_and_conduction (1 / 4) V1 V2 n fsw L
                = Ok (Conduction
                        (Finite (quarter_rms V1 V2 n fsw L))
                        (Finite (quarter_rms V1 V2 n fsw L * n))
                        (Finite (2 * Ron_pri * quarter_rms V1 V2 n fsw L ^ 2))
                        (Finite (2 * Ron_sec * (quarter_rms V1 V2 n fsw L * n) ^ 2)))).
  { unfold rms_and_conduction. rewrite Irms_prim_phaseShift_quarter by lra.
    reflexivity. }
  assert (Hchar : forall b r,
             characteristics_spec P V1 V2 fsw n b L r ->
             res_phi r = 1 / 4
             /\ res_resolution r
                = Finite (resolution_step n V1 V2 (1 / 4) (b_phase_shift_min b) fsw L)
             /\ res_I_pri_RMS r = Finite (quarter_rms V1 V2 n fsw L)
             /\ res_I_sec_RMS r = Finite (quarter_rms V1 V2 n fsw L * n)
             /\ res_total_Pcond r
                = Finite (2 * Ron_pri * quarter_rms V1 V2 n fsw L ^ 2
                          + 2 * Ron_sec * (quarter_rms V1 V2 n fsw L * n) ^ 2)).
  { intros b r (_ & _ & _ & Hphi & Hres & cd & Hcd' & Hp & Hs & Ht & _).
    rewrite Hsolve in Hphi. injection Hphi as Hphi.
    rewrite <- Hphi in *. rewrite Hcd in Hcd'. injection Hcd' as <-.
    rewrite Hres, Hp, Hs, Ht. simpl.
    rewrite np_resolution_step_finite by lra. repeat split. }
  split; [exact Hsolve |]. split; [| split].
  - intros d. unfold resolution_point. rewrite Hsolve.
    cbv beta iota delta [obind]. rewrite Hcd. cbv beta iota.
    eexists. split; [reflexivity |]. simpl. split; [reflexivity |].
    apply np_resolution_step_finite; lra.
  - intros Llk b log HT.
    destruct (design_characteristics_returns P V1 V2 fsw Llk n b L)
      as [r Hrun]; try lra; try assumption.
    destruct (Hrun log) as (added & Hr & _).
    exists r, added. split; [exact Hr |].
    exact (Hchar b r (design_characteristics_inv _ _ _ _ _ _ _ _ _ _ _ Hr)).
  - intros py_float args stdin Hpos EP E1 E2 En Ef EL.
    destruct (sizing_returns py_float args stdin Hpos)
      as (fuel & L0 & j & b & r & _ & _ & Hspec & Hrun).
    { unfold usable_selection. rewrite EL. lra. }
    unfold selected in Hspec. rewrite EL, EP, E1, E2, En, Ef in Hspec.
    exists fuel, r. split; [exact Hrun |].
    destruct (Hchar b r Hspec) as (Hphi & _ & Hpri & _).
    destruct Hspec as (_ & _ & Htot & _).
    repeat split; assumption.
Qed.

Lemma negative_discriminant_gives_quarter_witness :
  solve_phase_shift 1000 100e3 600e-6 15 720 40 = Ok (1 / 4)
  /\ (forall d, exists s,
        resolution_point 1000 600e-6 100e3 15 720 40 d = Ok s
        /\ rs_phi s = 1 / 4
        /\ rs_resolution s = Finite (resolution_step 15 720 40 (1 / 4) d 100e3 600e-6))
  /\ (exists fuel r,
        (forall extra log, exists log',
            dab_inductor_sizing_phaseShift (fun _ => None) (fuel + extra)
              (SizingArgs None None None None None None None None (Some 600e-6))
              EOFError log
            = (Ok r, log'))
        /\ res_Ltot r = 600e-6 /\ res_phi r = 1 / 4
        /\ res_I_pri_RMS r = Finite (quarter_rms 720 40 15 100e3 600e-6)).
Proof.
  destruct (negative_discriminant_gives_quarter 1000 720 40 15 100e3 600e-6)
    as (Hsolve & Hpoint & _ & Hrun); try lra.
  split; [exact Hsolve |]. split; [exact Hpoint |].
  apply (Hrun (fun _ => None)
           (SizingArgs None None None None None None None None (Some 600e-6))
           EOFError);
    try (unfold rated_P, given_V1, given_V2, given_n, given_fsw; simpl; lra);
    try reflexivity.
  unfold positive_args, rated_P, given_V1, given_V2, given_fsw, given_f_clk,
    given_n, given_resolution. simpl. repeat split; lra.
Defined.

(** ** The error paths of the model are live *)

(** A zero turns ratio makes the solver raise. *)
Lemma solve_phase_shift_zero_turns (P fsw L V1 V2 : R) :
  solve_phase_shift P fsw L 0 V1 V2 = Raise ZeroDivisionError.
Proof.
  unfold solve_phase_shift, quadratic_c. now rewrite truediv_zero.
Qed.

(** A zero inductance makes the RMS-current model raise. *)
Lemma Irms_prim_phaseShift_zero_inductance (phi V1 V2 n fsw : R) :
  Irms_prim_phaseShift phi V1 V2 n fsw 0 = Raise ZeroDivisionError.
Proof.
  unfold Irms_prim_phaseShift. cbv zeta.
  replace (2 * fsw * 0) with 0 by ring. now rewrite truediv_zero.
Qed.

(** Outside the valid range of [phi] the radicand can be negative: the RMS
    current is then a NaN, with no exception. *)
Lemma Irms_prim_phaseShift_nan : Irms_prim_phaseShift 1 1 1 1 1 1 = Ok NonFinite.
Proof.
  unfold Irms_prim_phaseShift. cbv zeta.
  rewrite truediv_ok by lra. cbv beta iota delta [obind].
  rewrite np_sqrt_negative; [reflexivity |].
  rewrite Rabs_pos_eq by lra. lra.
Qed.

(** Without fuel a search that has to iterate does not return. *)
Lemma resolution_search_out_of_fuel (P_min fsw n V1 V2 d thr : R) (st : search_state) :
  st_max_deltaP st > thr ->
  resolution_search 0 P_min fsw n V1 V2 d thr st = OutOfFuel.
Proof.
  intros H. simpl. destruct (Rgt_dec (st_max_deltaP st) thr); [reflexivity | contradiction].
Qed.

(** ** The series of [ploss_vs_resolution] *)

Section Series.

Variables power fsw n V1 V2 d Lmax : R.
Hypothesis power_pos : 0 < power.
Hypothesis fsw_pos : 0 < fsw.
Hypothesis n_pos : 0 < n.
Hypothesis V1_pos : 0 < V1.
Hypothesis V2_pos : 0 < V2.
Hypothesis d_pos : 0 < d.

(** Every sample lies at or above the start of the sweep and carries the
    resolution step of its own inductance; the inductances increase. *)
Lemma resolution_sweep_samples (fuel : nat) :
  forall (L : R) (series : list resolution_sample),
    0 < L ->
    resolution_sweep fuel power L Lmax fsw n V1 V2 d = Ok series ->
    Forall (fun s => L <= rs_L s
                     /\ rs_resolution s
                        = Finite (resolution_at power fsw n V1 V2 d (rs_L s)))
      series
    /\ StronglySorted (fun a b => rs_L a <= rs_L b) series.
Proof.
  induction fuel as [| fuel IH]; intros L series HL; simpl.
  - destruct (Rle_dec L Lmax); [discriminate |].
    intros H. injection H as <-. split; constructor.
  - destruct (Rle_dec L Lmax) as [G | G].
    + destruct (resolution_point_returns power L fsw n V1 V2 d)
        as (s & Hs & HsL & _ & Hres); try lra.
      rewrite Hs. cbv beta iota delta [obind].
      destruct (resolution_sweep fuel power (L + 1e-6) Lmax fsw n V1 V2 d)
        as [rest | e |] eqn:E; try discriminate.
      intros H. injection H as <-.
      destruct (IH (L + 1e-6) rest ltac:(lra) E) as [Hall Hsorted].
      split.
      * constructor.
        -- rewrite HsL. split; [lra | exact Hres].
        -- eapply Forall_impl; [| exact Hall]. intros a [Ha Hr]. split; [lra | exact Hr].
      * constructor; [exact Hsorted |].
        eapply Forall_impl; [| exact Hall]. intros a [Ha _]. rewrite HsL. lra.
    + intros H. injection H as <-. split; constructor.
Qed.

(** Along the series the resolution step never goes up. *)
Lemma ploss_vs_resolution_series_decreasing (fuel : nat) (Lmin Ts : R)
    (series : list resolution_sample) :
  0 < Lmin ->
  ploss_vs_resolution fuel power Lmin Lmax fsw n V1 V2 Ts d = Ok series ->
  StronglySorted
    (fun a b => exists ra rb,
         rs_resolution a = Finite ra /\ rs_resolution b = Finite rb /\ rb <= ra)
    series.
Proof.
  intros HL Hrun. unfold ploss_vs_resolution in Hrun.
  destruct (resolution_sweep_samples fuel Lmin series HL Hrun) as [Hall Hsorted].
  clear Hrun. induction Hsorted as [| a rest Hrest IH Ha]; [constructor |].
  inversion Hall as [| ? ? [HaL Hra] Hall']; subst.
  constructor; [exact (IH Hall') |].
  rewrite Forall_forall in *. intros b Hb.
  destruct (Hall' b Hb) as [HbL Hrb].
  exists (resolution_at power fsw n V1 V2 d (rs_L a)),
    (resolution_at power fsw n V1 V2 d (rs_L b)).
  split; [exact Hra |]. split; [exact Hrb |].
  apply resolution_at_decreasing; try assumption; [lra | exact (Ha b Hb)].
Qed.

End Series.

(** * Further properties of the sizing module *)

(** ** The sign and range of the solved phase shift *)

Lemma select_root_pos (c : R) : c < 0 -> 0 < select_root c.
Proof.
  intros Hc. destruct (Rle_dec 0 (discriminant c)) as [Hd | Hd].
  - rewrite (select_root_real c Hd).
    assert (sqrt (discriminant c) < 1).
    { rewrite <- sqrt_1. apply sqrt_lt_1_alt. unfold discriminant in *. lra. }
    lra.
  - rewrite select_root_complex; lra.
Qed.

Lemma select_root_zero : select_root 0 = 0.
Proof.
  rewrite select_root_real by (unfold discriminant; lra).
  replace (discriminant 0) with 1 by (unfold discriminant; lra).
  rewrite sqrt_1. lra.
Qed.

Lemma select_root_neg (c : R) : 0 < c -> select_root c < 0.
Proof.
  intros Hc. rewrite select_root_real by (unfold discriminant; lra).
  assert (1 < sqrt (discriminant c)).
  { rewrite <- sqrt_1 at 1. apply sqrt_lt_1_alt. unfold discriminant. lra. }
  lra.
Qed.

(** X1.  For positive [fsw], [L], [n], [V1], [V2] the solver returns a phase
    shift that never exceeds [1/4] and has the sign of the power: positive for
    [P > 0], zero for [P = 0], negative for [P < 0]. *)
Theorem phase_shift_follows_power_sign (P fsw L n V1 V2 : R) :
  0 < fsw -> 0 < L -> 0 < n -> 0 < V1 -> 0 < V2 ->
  exists phi,
    solve_phase_shift P fsw L n V1 V2 = Ok phi
    /\ phi <= 1 / 4
    /\ (0 < P -> 0 < phi)
    /\ (P = 0 -> phi = 0)
    /\ (P < 0 -> phi < 0).
Proof.
  intros Hf HL Hn H1 H2.
  exists (select_root (- P * fsw * L / n / V1 / V2)).
  split; [apply solve_phase_shift_ok; lra |].
  split; [apply select_root_le_quarter |].
  assert (HK : 0 < fsw * L / (n * V1 * V2)) by positivity.
  assert (Hc : - P * fsw * L / n / V1 / V2 = - P * (fsw * L / (n * V1 * V2))).
  { field. repeat split; lra. }
  rewrite Hc. split; [| split].
  - intros HP. apply select_root_pos. nra.
  - intros ->. replace (- 0 * (fsw * L / (n * V1 * V2))) with 0 by ring.
    apply select_root_zero.
  - intros HP. apply select_root_neg. nra.
Qed.

Lemma phase_shift_follows_power_sign_witness :
  exists phi,
    solve_phase_shift (-1000) 100e3 200e-6 15 720 40 = Ok phi
    /\ phi <= 1 / 4
    /\ (0 < -1000 -> 0 < phi)
    /\ (-1000 = 0 -> phi = 0)
    /\ (-1000 < 0 -> phi < 0).
Proof.
  apply (phase_shift_follows_power_sign (-1000) 100e3 200e-6 15 720 40); lra.
Defined.

(** ** The RMS current and the manual selection in closed form *)


Lemma selected_manual (py_float : string -> option R) (Ltot : option R)
    (stdin : input_result) (Lmin Lmax : R) :
  selected py_float Ltot stdin Lmin Lmax
  = match manual_selection py_float Ltot stdin with
    | Some l => l
    | None => (Lmin + Lmax) / 2
    end.
Proof.
  unfold selected, manual_selection.
  destruct Ltot; [reflexivity |]. destruct stdin; reflexivity.
Qed.

(** ** A zero inductance *)




(** ** The warning of the manual selection *)

(** X4.  A selection outside the bounds is flagged, never refused: the
    selection returns the number given by hand, or the midpoint, and prints
    the warning exactly when that number is below [Lmin] or above [Lmax].
    With the midpoint fallback this happens exactly when the design is
    infeasible ([Lmax < Lmin]). *)
Theorem selection_is_flagged_not_refused (py_float : string -> option R)
    (Ltot : option R) (stdin : input_result) (Lmin Lmax : R) (log : list event) :
  exists added,
    select_inductance py_float Ltot stdin Lmin Lmax log
    = (Ok (selected py_float Ltot stdin Lmin Lmax), log ++ added)
    /\ (In (Stdout Line_bounds_warning) added
        <-> selected py_float Ltot stdin Lmin Lmax < Lmin
            \/ Lmax < selected py_float Ltot stdin Lmin Lmax)
    /\ (manual_selection py_float Ltot stdin = None ->
        selected py_float Ltot stdin Lmin Lmax = (Lmin + Lmax) / 2
        /\ (In (Stdout Line_bounds_warning) added <-> Lmax < Lmin)).
Proof.
  assert (Hmid : manual_selection py_float Ltot stdin = None ->
                 selected py_float Ltot stdin Lmin Lmax = (Lmin + Lmax) / 2).
  { intros H. rewrite selected_manual. now rewrite H. }
  assert (Hnotin : forall pre : list event,
             Forall (fun e => e <> Stdout Line_bounds_warning) pre ->
             forall l,
               (In (Stdout Line_bounds_warning)
                  (pre ++ (if Rlt_dec l Lmin then [Stdout Line_bounds_warning]
                           else if Rgt_dec l Lmax then [Stdout Line_bounds_warning]
                           else []))
                <-> l < Lmin \/ Lmax < l)).
  { intros pre Hpre l. rewrite in_app_iff. rewrite Forall_forall in Hpre.
    destruct (Rlt_dec l Lmin) as [A | A]; [| destruct (Rgt_dec l Lmax) as [B | B]];
      simpl; split; intros H; auto.
    - destruct H as [H | []]. now apply Hpre in H.
    - exfalso. destruct H; lra. }
  set (l := selected py_float Ltot stdin Lmin Lmax) in *.
  assert (Hrun : exists pre,
             Forall (fun e => e <> Stdout Line_bounds_warning) pre
             /\ select_inductance py_float Ltot stdin Lmin Lmax log
                = (Ok l,
                   log ++ pre
                   ++ (if Rlt_dec l Lmin then [Stdout Line_bounds_warning]
                       else if Rgt_dec l Lmax then [Stdout Line_bounds_warning]
                       else []))).
  { unfold l, selected, select_inductance, bind, ret, emit.
    destruct Ltot as [l0 |];
      [exists [] | destruct stdin as [text | |];
                   [destruct (py_float text);
                    [exists [Prompt] | exists [Prompt; Stdout Line_invalid_input]]
                   | exists [Prompt; Stdout Line_non_interactive]
                   | exists [Prompt; Stdout Line_non_interactive]]];
      (split; [repeat constructor; discriminate |]);
      match goal with
      | |- context [Rlt_dec ?x Lmin] =>
          destruct (Rlt_dec x Lmin); [| destruct (Rgt_dec x Lmax)]
      end; simpl; rewrite <- ?app_assoc; simpl; rewrite ?app_nil_r; reflexivity. }
  destruct Hrun as (pre & Hpre & Hrun).
  eexists. split; [exact Hrun |]. split; [apply Hnotin; exact Hpre |].
  intros Hnone. split; [now apply Hmid |].
  rewrite (Hnotin pre Hpre l). rewrite (Hmid Hnone). split; intros H; lra.
Qed.

(** ** The bounds of any successful run *)

Lemma compute_bounds_fuel (fuel extra : nat) (P V1 V2 fsw f_clk n rp : R)
    (log log' : list event) (b : bounds) :
  compute_bounds fuel P V1 V2 fsw f_clk n rp log = (Ok b, log') ->
  compute_bounds (fuel + extra) P V1 V2 fsw f_clk n rp log = (Ok b, log').
Proof.
  unfold compute_bounds, bind, lift, emit, ret.
  destruct (truediv 1 fsw) as [Ts | |]; try (intros H; discriminate (f_equal fst H)).
  destruct (zvs_lower_bound (0.5 * P) V1 V2 n Ts) as [L0 | |];
    try (intros H; discriminate (f_equal fst H)).
  destruct (quadratic_c (0.5 * P) fsw L0 n V1 V2) as [c | |];
    try (intros H; discriminate (f_equal fst H)).
  destruct (x <~ truediv 1 f_clk;; truediv x Ts) as [d | |];
    try (intros H; discriminate (f_equal fst H)).
  destruct (resolution_search fuel (0.5 * P) fsw n V1 V2 d (rp * P) _)
    as [st | |] eqn:E; try (intros H; discriminate (f_equal fst H)).
  now rewrite (resolution_search_fuel fuel extra _ _ _ _ _ _ _ _ _ E).
Qed.

(** Whatever the fuel, a run of the first half that returns has returned
    the bounds described by [bounds_spec]. *)
Lemma compute_bounds_spec (fuel : nat) (P V1 V2 fsw f_clk n rp : R)
    (log log' : list event) (b : bounds) :
  0 < P -> 0 < V1 -> 0 < V2 -> 0 < fsw -> 0 < f_clk -> 0 < n -> 0 < rp ->
  compute_bounds fuel P V1 V2 fsw f_clk n rp log = (Ok b, log') ->
  exists L0 j,
    zvs_lower_bound (0.5 * P) V1 V2 n (1 / fsw) = Ok L0
    /\ 0 < L0
    /\ bounds_spec P V1 V2 fsw f_clk n rp L0 j b.
Proof.
  intros HP H1 H2 Hf Hc Hn Hr Hrun.
  destruct (compute_bounds_returns P V1 V2 fsw f_clk n rp)
    as (L0 & k & j & b0 & HL0 & HL0pos & _ & Hspec & Hcb); try assumption.
  apply (compute_bounds_fuel fuel k) in Hrun.
  specialize (Hcb fuel log). rewrite Nat.add_comm in Hcb.
  rewrite Hcb in Hrun. injection Hrun as <- _.
  now exists L0, j.
Qed.

Section Bounds.

Variables P V1 V2 fsw f_clk n rp : R.
Hypothesis P_pos : 0 < P.
Hypothesis V1_pos : 0 < V1.
Hypothesis V2_pos : 0 < V2.
Hypothesis fsw_pos : 0 < fsw.
Hypothesis f_clk_pos : 0 < f_clk.
Hypothesis n_pos : 0 < n.
Hypothesis rp_pos : 0 < rp.

Variables (fuel : nat) (log log' : list event) (b : bounds).
Hypothesis run : compute_bounds fuel P V1 V2 fsw f_clk n rp log = (Ok b, log').

Lemma phase_shift_min_value : b_phase_shift_min b = fsw / f_clk.
Proof.
  destruct (compute_bounds_spec fuel P V1 V2 fsw f_clk n rp log log' b)
    as (L0 & j & _ & _ & (_ & _ & -> & _)); try assumption.
  field. split; lra.
Qed.

Lemma phase_shift_min_pos : 0 < b_phase_shift_min b.
Proof. rewrite phase_shift_min_value. positivity. Qed.

Lemma upper_bound_value : b_Lmax b = n * V1 * V2 / (8 * P * fsw).
Proof.
  destruct (compute_bounds_spec fuel P V1 V2 fsw f_clk n rp log log' b)
    as (L0 & j & _ & _ & Hspec); try assumption.
  destruct Hspec as (_ & _ & _ & _ & _ & _ & _ & _ & _ & HLmax & _).
  rewrite HLmax. replace 0.25 with (1 / 4) by lra. field. split; lra.
Qed.

(** The returned bound against the resolution constraint. *)
Lemma minimal_within_a_step :
  (forall L, b_Lmin b <= L ->
     resolution_at (0.5 * P) fsw n V1 V2 (b_phase_shift_min b) L <= rp * P)
  /\ (b_limiter b = resolution_requirement ->
      forall L, 0 < L -> L * 1.0001 <= b_Lmin b ->
        rp * P < resolution_at (0.5 * P) fsw n V1 V2 (b_phase_shift_min b) L).
Proof.
  pose proof phase_shift_min_pos as Hd.
  destruct (compute_bounds_spec fuel P V1 V2 fsw f_clk n rp log log' b)
    as (L0 & j & _ & HL0 & Hspec); try assumption.
  destruct (bounds_spec_positive _ _ _ _ _ _ _ _ _ _ P_pos V1_pos V2_pos fsw_pos
              n_pos HL0 Hspec) as (HLmin & _ & _).
  destruct Hspec as (_ & _ & _ & HL & _ & Hmax & Hle & Hfirst & Hlim & _).
  split.
  - intros L HLL. rewrite Hmax in Hle.
    eapply Rle_trans; [| exact Hle].
    apply resolution_at_decreasing; try assumption; lra.
  - intros Hres L HLpos HLstep.
    destruct j as [| j]; [simpl in Hlim; rewrite Hlim in Hres; discriminate |].
    specialize (Hfirst j (Nat.lt_succ_diag_r j)).
    eapply Rlt_le_trans; [exact Hfirst |].
    apply resolution_at_decreasing; try assumption; try lra.
    rewrite HL in HLstep. simpl in HLstep.
    assert (0 < 1.0001 ^ j) by (apply pow_lt; lra). nra.
Qed.

(** The reported limiter against the closed-form estimate. *)
Lemma limiter_iff_estimate :
  exists L0,
    zvs_lower_bound (0.5 * P) V1 V2 n (1 / fsw) = Ok L0
    /\ L0 <= b_Lmin b
    /\ (b_limiter b = ZVS_condition_at_minimum_power
        <-> resolution_at (0.5 * P) fsw n V1 V2 (b_phase_shift_min b) L0 <= rp * P)
    /\ (b_limiter b = ZVS_condition_at_minimum_power -> b_Lmin b = L0).
Proof.
  destruct (compute_bounds_spec fuel P V1 V2 fsw f_clk n rp log log' b)
    as (L0 & j & Hzvs & HL0 & Hspec); try assumption.
  destruct Hspec as (_ & _ & _ & HL & _ & Hmax & Hle & Hfirst & Hlim & _).
  exists L0. split; [exact Hzvs |].
  assert (Hpow : 1 <= 1.0001 ^ j) by (apply pow_R1_Rle; lra).
  split; [rewrite HL; nra |].
  destruct j as [| j]; simpl in Hlim, HL.
  - rewrite Rmult_1_r in HL. rewrite HL in Hmax. rewrite Hmax in Hle.
    split; [| intros _; exact HL]. split; [intros _; exact Hle | intros _; exact Hlim].
  - specialize (Hfirst 0%nat (Nat.lt_0_succ j)). simpl in Hfirst.
    rewrite Rmult_1_r in Hfirst. rewrite Hlim.
    split; [| discriminate]. split; [discriminate | lra].
Qed.

(** The upper bound and the resolution step reported for it. *)
Lemma full_power_closed_form :
  b_Lmax b = n * V1 * V2 / (8 * P * fsw)
  /\ b_phase_shift_min b = fsw / f_clk
  /\ b_min_deltaP b = 16 * P * (fsw / f_clk) ^ 2.
Proof.
  pose proof phase_shift_min_value as Hd. pose proof upper_bound_value as HLm.
  destruct (compute_bounds_spec fuel P V1 V2 fsw f_clk n rp log log' b)
    as (L0 & j & _ & _ & Hspec); try assumption.
  destruct Hspec as (_ & _ & _ & _ & _ & _ & _ & _ & _ & _ & Hmin).
  assert (HK : 0 < n * V1 * V2) by positivity.
  split; [exact HLm |]. split; [exact Hd |].
  rewrite Hmin, Hd, HLm. unfold phi_max.
  rewrite resolution_step_closed_form; try lra.
  - replace 0.25 with (1 / 4) by lra. field. repeat split; lra.
  - assert (0 < n * V1 * V2 / (8 * P * fsw)) by positivity. lra.
Qed.

(** The lower bound against the closed-form estimate and the upper bound. *)
Lemma lower_bound_estimate (L0 : R) :
  zvs_lower_bound (0.5 * P) V1 V2 n (1 / fsw) = Ok L0 ->
  (b_Lmin b = L0
   \/ b_Lmin b
      < 1.0001 * (n * V1 * V2 * (fsw / f_clk) * (1 + 2 * (fsw / f_clk))
                  / (fsw * (rp * P))))
  /\ (L0 <= n * V1 * V2 / (8 * P * fsw) ->
      8.0008 * (fsw / f_clk) * (1 + 2 * (fsw / f_clk)) <= rp ->
      b_Lmin b <= b_Lmax b).
Proof.
  intros Hzvs0.
  pose proof phase_shift_min_value as Hd. pose proof phase_shift_min_pos as Hdpos.
  pose proof upper_bound_value as HLmax.
  destruct (compute_bounds_spec fuel P V1 V2 fsw f_clk n rp log log' b)
    as (L0' & j & Hzvs & HL0 & Hspec); try assumption.
  rewrite Hzvs0 in Hzvs. injection Hzvs as <-.
  destruct Hspec as (_ & _ & _ & HL & _ & _ & _ & Hfirst & _).
  rewrite Hd in *. set (d := fsw / f_clk) in *.
  assert (HK : 0 < n * V1 * V2) by positivity.
  assert (Hthr : 0 < rp * P) by positivity.
  assert (Hcase : b_Lmin b = L0
                  \/ b_Lmin b
                     < 1.0001 * (n * V1 * V2 * d * (1 + 2 * d) / (fsw * (rp * P)))).
  { destruct j as [| j]; [left; rewrite HL; simpl; ring | right].
    specialize (Hfirst j (Nat.lt_succ_diag_r j)).
    assert (Hprev : 0 < L0 * 1.0001 ^ j)
      by (apply Rmult_lt_0_compat; [assumption | apply pow_lt; lra]).
    pose proof (resolution_at_bound (0.5 * P) fsw n V1 V2 d ltac:(lra) fsw_pos
                  n_pos V1_pos V2_pos Hdpos _ Hprev) as Hbound.
    assert (HLstep : b_Lmin b = 1.0001 * (L0 * 1.0001 ^ j))
      by (rewrite HL; simpl; ring).
    rewrite HLstep. clear HL HLstep.
    generalize dependent (L0 * 1.0001 ^ j). intros Lp Hfirst Hprev Hbound.
    assert (Hlt : rp * P < n * V1 * V2 * d * (1 + 2 * d) / (fsw * Lp)) by lra.
    assert (Hnum : 0 < n * V1 * V2 * d * (1 + 2 * d)) by positivity.
    assert (Hprevlt : Lp < n * V1 * V2 * d * (1 + 2 * d) / (fsw * (rp * P))).
    { apply (Rmult_lt_compat_r (fsw * Lp)) in Hlt; [| positivity].
      replace (n * V1 * V2 * d * (1 + 2 * d) / (fsw * Lp) * (fsw * Lp))
        with (n * V1 * V2 * d * (1 + 2 * d)) in Hlt by (field; lra).
      apply (Rmult_lt_reg_r (fsw * (rp * P))); [positivity |].
      replace (n * V1 * V2 * d * (1 + 2 * d) / (fsw * (rp * P)) * (fsw * (rp * P)))
        with (n * V1 * V2 * d * (1 + 2 * d)) by (field; lra).
      nra. }
    lra. }
  split; [exact Hcase |].
  intros HL0max Hcoarse. rewrite HLmax.
  destruct Hcase as [-> | Hlt]; [assumption |].
  left.
  replace 8.0008 with (8 * 1.0001) in Hcoarse by lra.
  assert (Hstep : 0 < 1.0001) by lra.
  generalize dependent 1.0001. intros s _ _ Hlt Hcoarse Hs.
  eapply Rlt_le_trans; [exact Hlt |]. clear Hlt.
  apply (Rmult_le_reg_r (8 * P * fsw * rp)); [positivity |].
  replace (s * (n * V1 * V2 * d * (1 + 2 * d) / (fsw * (rp * P)))
           * (8 * P * fsw * rp))
    with (n * V1 * V2 * (8 * s * d * (1 + 2 * d))) by (field; lra).
  replace (n * V1 * V2 / (8 * P * fsw) * (8 * P * fsw * rp))
    with (n * V1 * V2 * rp) by (field; lra).
  apply Rmult_le_compat_l; lra.
Qed.

End Bounds.

(** ** The dictionary of a run that returns *)




(** X5.  The lower bound the search returns meets the resolution constraint,
    and so does every larger inductance; when the search had to raise the
    closed-form estimate, every inductance at least one step ([1.0001])
    below the returned bound violates the constraint. *)
Theorem lower_bound_is_minimal_within_a_step (P V1 V2 fsw f_clk n rp : R)
    (fuel : nat) (log log' : list event) (b : bounds) :
  0 < P -> 0 < V1 -> 0 < V2 -> 0 < fsw -> 0 < f_clk -> 0 < n -> 0 < rp ->
  compute_bounds fuel P V1 V2 fsw f_clk n rp log = (Ok b, log') ->
  (forall L, b_Lmin b <= L ->
     resolution_at (0.5 * P) fsw n V1 V2 (b_phase_shift_min b) L <= rp * P)
  /\ (b_limiter b = resolution_requirement ->
      forall L, 0 < L -> L * 1.0001 <= b_Lmin b ->
        rp * P < resolution_at (0.5 * P) fsw n V1 V2 (b_phase_shift_min b) L).
Proof.
  intros HP H1 H2 Hf Hc Hn Hr Hrun.
  exact (minimal_within_a_step P V1 V2 fsw f_clk n rp HP H1 H2 Hf Hc Hn Hr fuel
           log log' b Hrun).
Qed.

(** X6.  The limiting constraint the routine reports is the zero-voltage
    switching condition exactly when the closed-form estimate [L0] already
    meets the resolution constraint; the lower bound is then [L0], and it is
    never below [L0]. *)
Theorem limiter_is_zvs_iff_estimate_suffices (P V1 V2 fsw f_clk n rp : R)
    (fuel : nat) (log log' : list event) (b : bounds) :
  0 < P -> 0 < V1 -> 0 < V2 -> 0 < fsw -> 0 < f_clk -> 0 < n -> 0 < rp ->
  compute_bounds fuel P V1 V2 fsw f_clk n rp log = (Ok b, log') ->
  exists L0,
    zvs_lower_bound (0.5 * P) V1 V2 n (1 / fsw) = Ok L0
    /\ L0 <= b_Lmin b
    /\ (b_limiter b = ZVS_condition_at_minimum_power
        <-> resolution_at (0.5 * P) fsw n V1 V2 (b_phase_shift_min b) L0 <= rp * P)
    /\ (b_limiter b = ZVS_condition_at_minimum_power -> b_Lmin b = L0).
Proof.
  intros HP H1 H2 Hf Hc Hn Hr Hrun.
  exact (limiter_iff_estimate P V1 V2 fsw f_clk n rp HP H1 H2 Hf Hc Hn Hr fuel
           log log' b Hrun).
Qed.

(** X7.  The upper bound is [n V1 V2 / (8 P fsw)], the smallest phase-shift
    increment is [fsw / f_clk], and the resolution step the routine reports
    for the upper bound at full power is [16 P (fsw / f_clk)^2]: it does not
    depend on the voltages or the turns ratio. *)
Theorem resolution_at_full_power_closed_form (P V1 V2 fsw f_clk n rp : R)
    (fuel : nat) (log log' : list event) (b : bounds) :
  0 < P -> 0 < V1 -> 0 < V2 -> 0 < fsw -> 0 < f_clk -> 0 < n -> 0 < rp ->
  compute_bounds fuel P V1 V2 fsw f_clk n rp log = (Ok b, log') ->
  b_Lmax b = n * V1 * V2 / (8 * P * fsw)
  /\ b_phase_shift_min b = fsw / f_clk
  /\ b_min_deltaP b = 16 * P * (fsw / f_clk) ^ 2.
Proof.
  intros HP H1 H2 Hf Hc Hn Hr Hrun.
  exact (full_power_closed_form P V1 V2 fsw f_clk n rp HP H1 H2 Hf Hc Hn Hr fuel
           log log' b Hrun).
Qed.

(** X8.  The lower bound is the closed-form estimate [L0], or it lies less
    than one step above [n V1 V2 d (1 + 2 d) / (fsw rp P)] with
    [d = fsw / f_clk].  Hence the design is feasible ([Lmin <= Lmax]) whenever
    [L0] is at most the upper bound and [8.0008 d (1 + 2 d) <= rp]. *)
Theorem coarse_enough_resolution_is_feasible (P V1 V2 fsw f_clk n rp : R)
    (fuel : nat) (log log' : list event) (b : bounds) (L0 : R) :
  0 < P -> 0 < V1 -> 0 < V2 -> 0 < fsw -> 0 < f_clk -> 0 < n -> 0 < rp ->
  compute_bounds fuel P V1 V2 fsw f_clk n rp log = (Ok b, log') ->
  zvs_lower_bound (0.5 * P) V1 V2 n (1 / fsw) = Ok L0 ->
  (b_Lmin b = L0
   \/ b_Lmin b
      < 1.0001 * (n * V1 * V2 * (fsw / f_clk) * (1 + 2 * (fsw / f_clk))
                  / (fsw * (rp * P))))
  /\ (L0 <= n * V1 * V2 / (8 * P * fsw) ->
      8.0008 * (fsw / f_clk) * (1 + 2 * (fsw / f_clk)) <= rp ->
      b_Lmin b <= b_Lmax b).
Proof.
  intros HP H1 H2 Hf Hc Hn Hr Hrun Hzvs.
  exact (lower_bound_estimate P V1 V2 fsw f_clk n rp HP H1 H2 Hf Hc Hn Hr fuel log
           log' b Hrun L0 Hzvs).
Qed.

(** The first half of the routine returns for the default arguments. *)
Lemma default_bounds_run :
  exists fuel b log',
    compute_bounds fuel 1e3 720 40 100e3 250e6 15 0.025 [] = (Ok b, log').
Proof.
  destruct (compute_bounds_returns 1e3 720 40 100e3 250e6 15 0.025)
    as (L0 & k & j & b & _ & _ & _ & _ & Hrun); try lra.
  exists (k + 0)%nat, b. eexists. apply Hrun.
Qed.

Lemma lower_bound_is_minimal_within_a_step_witness :
  exists fuel b log',
    compute_bounds fuel 1e3 720 40 100e3 250e6 15 0.025 [] = (Ok b, log')
    /\ (forall L, b_Lmin b <= L ->
          resolution_at (0.5 * 1e3) 100e3 15 720 40 (b_phase_shift_min b) L
          <= 0.025 * 1e3)
    /\ (b_limiter b = resolution_requirement ->
        forall L, 0 < L -> L * 1.0001 <= b_Lmin b ->
          0.025 * 1e3
          < resolution_at (0.5 * 1e3) 100e3 15 720 40 (b_phase_shift_min b) L).
Proof.
  destruct default_bounds_run as (fuel & b & log' & Hrun).
  exists fuel, b, log'. split; [exact Hrun |].
  apply (lower_bound_is_minimal_within_a_step 1e3 720 40 100e3 250e6 15 0.025 fuel []
           log' b); try lra.
  exact Hrun.
Defined.

Lemma limiter_is_zvs_iff_estimate_suffices_witness :
  exists fuel b log',
    compute_bounds fuel 1e3 720 40 100e3 250e6 15 0.025 [] = (Ok b, log')
    /\ exists L0,
         zvs_lower_bound (0.5 * 1e3) 720 40 15 (1 / 100e3) = Ok L0
         /\ L0 <= b_Lmin b
         /\ (b_limiter b = ZVS_condition_at_minimum_power
             <-> resolution_at (0.5 * 1e3) 100e3 15 720 40 (b_phase_shift_min b) L0
                 <= 0.025 * 1e3)
         /\ (b_limiter b = ZVS_condition_at_minimum_power -> b_Lmin b = L0).
Proof.
  destruct default_bounds_run as (fuel & b & log' & Hrun).
  exists fuel, b, log'. split; [exact Hrun |].
  apply (limiter_is_zvs_iff_estimate_suffices 1e3 720 40 100e3 250e6 15 0.025 fuel []
           log' b); try lra.
  exact Hrun.
Defined.

Lemma resolution_at_full_power_closed_form_witness :
  exists fuel b log',
    compute_bounds fuel 1e3 720 40 100e3 250e6 15 0.025 [] = (Ok b, log')
    /\ b_Lmax b = 15 * 720 * 40 / (8 * 1e3 * 100e3)
    /\ b_phase_shift_min b = 100e3 / 250e6
    /\ b_min_deltaP b = 16 * 1e3 * (100e3 / 250e6) ^ 2.
Proof.
  destruct default_bounds_run as (fuel & b & log' & Hrun).
  exists fuel, b, log'. split; [exact Hrun |].
  apply (resolution_at_full_power_closed_form 1e3 720 40 100e3 250e6 15 0.025 fuel []
           log' b); try lra.
  exact Hrun.
Defined.

(** The default design is feasible. *)
Lemma coarse_enough_resolution_is_feasible_witness :
  exists fuel b log',
    compute_bounds fuel 1e3 720 40 100e3 250e6 15 0.025 [] = (Ok b, log')
    /\ b_Lmin b <= b_Lmax b.
Proof.
  destruct default_bounds_run as (fuel & b & log' & Hrun).
  exists fuel, b, log'. split; [exact Hrun |].
  destruct (zvs_lower_bound_ok (0.5 * 1e3) 720 40 15 (1 / 100e3))
    as (L0 & HL0 & HL0eq & _); try lra.
  destruct (coarse_enough_resolution_is_feasible 1e3 720 40 100e3 250e6 15 0.025
              fuel [] log' b L0 ltac:(lra) ltac:(lra) ltac:(lra) ltac:(lra)
              ltac:(lra) ltac:(lra) ltac:(lra) Hrun HL0) as [_ Hfeasible].
  apply Hfeasible.
  - rewrite HL0eq. unfold Coss_pri. lra.
  - lra.
Defined.

(** ** A phase shift below one increment *)

(** X9.  When the power is below what one phase-shift increment [d <= 1/4]
    transfers, the solved phase shift lies below [d]; the second term of the
    resolution step is then the power equation at a negative phase shift, it
    is negative, and the resolution step exceeds the operating power. *)
Theorem resolution_step_exceeds_power_below_one_increment (P fsw n V1 V2 d L : R) :
  0 < P -> 0 < fsw -> 0 < n -> 0 < V1 -> 0 < V2 -> 0 < L ->
  0 < d <= 1 / 4 ->
  P < power_transfer n V1 V2 d fsw L ->
  exists phi,
    solve_phase_shift P fsw L n V1 V2 = Ok phi
    /\ 0 < phi < d
    /\ power_transfer n V1 V2 (phi - d) fsw L < 0
    /\ P < resolution_step n V1 V2 phi d fsw L.
Proof.
  intros HP Hf Hn H1 H2 HL Hd Hlt.
  set (c := - P * fsw * L / n / V1 / V2).
  assert (HK : 0 < n * V1 * V2) by positivity.
  assert (Hscale : 0 < n * V1 * V2 / fsw / L) by positivity.
  assert (Hpt : forall x, power_transfer n V1 V2 x fsw L
                          = n * V1 * V2 / fsw / L * (x * (1 - 2 * x))).
  { intros x. unfold power_transfer. field. split; lra. }
  assert (Hc : c = - (P / (n * V1 * V2 / fsw / L))).
  { unfold c. field. repeat split; lra. }
  assert (Hp : P / (n * V1 * V2 / fsw / L) < d * (1 - 2 * d)).
  { rewrite Hpt in Hlt. apply (Rmult_lt_reg_r (n * V1 * V2 / fsw / L)); [assumption |].
    unfold Rdiv at 1. rewrite Rmult_assoc, Rinv_l by lra. lra. }
  assert (Hp0 : 0 < P / (n * V1 * V2 / fsw / L)) by (apply Rdiv_lt_0_compat; assumption).
  set (p := P / (n * V1 * V2 / fsw / L)) in *.
  assert (Hdisc : 0 <= discriminant c) by (unfold discriminant; nra).
  pose proof (select_root_is_root c Hdisc) as Hroot.
  pose proof (select_root_le_quarter c) as Hq.
  assert (Hpos : 0 < select_root c) by (apply select_root_pos; lra).
  set (phi := select_root c) in *.
  assert (Hphi : phi * (1 - 2 * phi) = p) by (rewrite Hc in Hroot; lra).
  assert (Hphid : phi < d).
  { destruct (Rlt_dec phi d) as [A | A]; [assumption | exfalso].
    assert (0 <= (phi - d) * (1 - 2 * (phi + d))) by (apply Rmult_le_pos; lra).
    nra. }
  exists phi. split; [unfold phi, c; apply solve_phase_shift_ok; lra |].
  split; [lra |].
  assert (Hneg : power_transfer n V1 V2 (phi - d) fsw L < 0).
  { rewrite Hpt.
    assert ((phi - d) * (1 - 2 * (phi - d)) < 0) by nra.
    nra. }
  split; [exact Hneg |].
  unfold resolution_step.
  assert (HPeq : power_transfer n V1 V2 phi fsw L = P).
  { apply power_transfer_of_root; try lra. exact Hroot. }
  lra.
Qed.

Lemma resolution_step_exceeds_power_below_one_increment_witness :
  exists phi,
    solve_phase_shift 1000 100e3 1e-6 15 720 40 = Ok phi
    /\ 0 < phi < 100e3 / 250e6
    /\ power_transfer 15 720 40 (phi - 100e3 / 250e6) 100e3 1e-6 < 0
    /\ 1000 < resolution_step 15 720 40 phi (100e3 / 250e6) 100e3 1e-6.
Proof.
  apply (resolution_step_exceeds_power_below_one_increment
           1000 100e3 15 720 40 (100e3 / 250e6) 1e-6); try lra.
  unfold power_transfer. lra.
Defined.

(** ** The RMS current without phase shift *)



(** ** The sample grids of the two sweeps *)

Lemma resolution_sweep_grid (fuel : nat) (power Lmax fsw n V1 V2 d : R) :
  forall (L : R) (series : list resolution_sample),
    resolution_sweep fuel power L Lmax fsw n V1 V2 d = Ok series ->
    (forall i s, nth_error series i = Some s ->
       rs_L s = L + INR i * 1e-6 /\ rs_L s <= Lmax)
    /\ Lmax < L + INR (List.length series) * 1e-6.
Proof.
  induction fuel as [| fuel IH]; intros L series; simpl.
  - destruct (Rle_dec L Lmax) as [G | G]; [discriminate |].
    intros H. injection H as <-. split.
    + intros [| i] s H; discriminate.
    + simpl. lra.
  - destruct (Rle_dec L Lmax) as [G | G].
    + unfold resolution_point.
      destruct (solve_phase_shift power fsw L n V1 V2) as [phi | |];
        simpl; try discriminate.
      destruct (rms_and_conduction phi V1 V2 n fsw L) as [cd | |];
        simpl; try discriminate.
      destruct (resolution_sweep fuel power (L + 1e-6) Lmax fsw n V1 V2 d)
        as [rest | |] eqn:E; simpl; try discriminate.
      intros H. injection H as <-.
      destruct (IH _ _ E) as [Hnth Hlen]. split.
      * intros [| i] s Hs.
        -- injection Hs as <-. simpl. split; lra.
        -- destruct (Hnth i s Hs) as [HsL Hle]. split; [| exact Hle].
           rewrite HsL, S_INR. ring.
      * change (List.length (_ :: rest)) with (S (List.length rest)). rewrite S_INR. lra.
    + intros H. injection H as <-. split.
      * intros [| i] s H; discriminate.
      * simpl. lra.
Qed.

(** X11.  [ploss_vs_resolution] samples the inductances [Lmin],
    [Lmin + 1 uH], [Lmin + 2 uH], ...: sample [i] is taken at
    [Lmin + i * 1e-6], every sample is at most [Lmax], the next grid point
    after the last sample is beyond [Lmax], and the series is empty exactly
    when [Lmax < Lmin]. *)
Theorem ploss_vs_resolution_grid (fuel : nat)
    (power Lmin Lmax fsw n V1 V2 Ts d : R) (series : list resolution_sample) :
  ploss_vs_resolution fuel power Lmin Lmax fsw n V1 V2 Ts d = Ok series ->
  (forall i s, nth_error series i = Some s ->
     rs_L s = Lmin + INR i * 1e-6 /\ rs_L s <= Lmax)
  /\ Lmax < Lmin + INR (List.length series) * 1e-6
  /\ (series = [] <-> Lmax < Lmin).
Proof.
  unfold ploss_vs_resolution. intros Hrun.
  destruct (resolution_sweep_grid _ _ _ _ _ _ _ _ _ _ Hrun) as [Hnth Hlen].
  split; [exact Hnth |]. split; [exact Hlen |].
  split.
  - intros ->. simpl in Hlen. lra.
  - intros Hlt. destruct series as [| s rest]; [reflexivity | exfalso].
    destruct (Hnth 0%nat s eq_refl) as [HsL Hle]. simpl in HsL. lra.
Qed.

Lemma ploss_vs_resolution_grid_witness :
  exists fuel series,
    ploss_vs_resolution fuel 1000 100e-6 102.5e-6 100e3 15 720 40 (1 / 100e3)
      (100e3 / 250e6) = Ok series
    /\ (forall i s, nth_error series i = Some s ->
          rs_L s = 100e-6 + INR i * 1e-6 /\ rs_L s <= 102.5e-6)
    /\ 102.5e-6 < 100e-6 + INR (List.length series) * 1e-6
    /\ (series = [] <-> 102.5e-6 < 100e-6).
Proof.
  destruct (ploss_vs_resolution_returns 1000 100e-6 102.5e-6 100e3 15 720 40
              (1 / 100e3) (100e3 / 250e6)) as (k & series & Hrun); try lra.
  exists (k + 0)%nat, series. split; [apply Hrun |].
  exact (ploss_vs_resolution_grid (k + 0) 1000 100e-6 102.5e-6 100e3 15 720 40
           (1 / 100e3) (100e3 / 250e6) series (Hrun 0%nat)).
Defined.

(** X12.  For positive arguments and a positive start, every resolution step
    of a series [ploss_vs_resolution] returns is a finite positive number,
    and along the series the steps never go up. *)
Theorem ploss_vs_resolution_series_never_rises (fuel : nat)
    (power Lmin Lmax fsw n V1 V2 Ts d : R) (series : list resolution_sample) :
  0 < power -> 0 < fsw -> 0 < n -> 0 < V1 -> 0 < V2 -> 0 < d -> 0 < Lmin ->
  ploss_vs_resolution fuel power Lmin Lmax fsw n V1 V2 Ts d = Ok series ->
  StronglySorted
    (fun a b => exists ra rb,
         rs_resolution a = Finite ra /\ rs_resolution b = Finite rb
         /\ rb <= ra)
    series
  /\ Forall (fun s => exists r, rs_resolution s = Finite r /\ 0 < r) series.
Proof.
  intros HP Hf Hn H1 H2 Hd HL Hrun. split.
  - apply (ploss_vs_resolution_series_decreasing power fsw n V1 V2 d Lmax
             HP Hf Hn H1 H2 Hd fuel Lmin Ts series HL Hrun).
  - unfold ploss_vs_resolution in Hrun.
    destruct (resolution_sweep_samples power fsw n V1 V2 d Lmax Hf Hn H1 H2
                fuel Lmin series HL Hrun) as [Hall _].
    eapply Forall_impl; [| exact Hall]. intros s [HsL Hres].
    eexists. split; [exact Hres |].
    apply resolution_at_pos; try assumption. lra.
Qed.

Lemma ploss_vs_resolution_series_never_rises_witness :
  exists fuel series,
    ploss_vs_resolution fuel 1000 100e-6 540e-6 100e3 15 720 40
      (1 / 100e3) (100e3 / 250e6)
    = Ok series
    /\ StronglySorted
         (fun a b => exists ra rb,
              rs_resolution a = Finite ra /\ rs_resolution b = Finite rb
              /\ rb <= ra)
         series
    /\ Forall (fun s => exists r, rs_resolution s = Finite r /\ 0 < r) series.
Proof.
  destruct (ploss_vs_resolution_returns 1000 100e-6 540e-6 100e3 15 720 40
              (1 / 100e3) (100e3 / 250e6)) as (k & series & Hrun); try lra.
  exists (k + 0)%nat, series. split; [apply Hrun |].
  apply (ploss_vs_resolution_series_never_rises (k + 0) 1000 100e-6 540e-6 100e3
           15 720 40 (1 / 100e3) (100e3 / 250e6) series); try lra.
  apply Hrun.
Defined.

(** ** The sweep in double precision *)

Section Binary64Sweep.
Import PrimFloat.
#[local] Set Warnings "-inexact-float".

Lemma binary64_sweep_no_series (np_roots : float -> outcome (float * float))
    (power L Lmax fsw n V1 V2 d : float) :
  (L + 1e-6)%float = L ->
  (L <=? Lmax)%float = true ->
  forall fuel series,
    F64.resolution_sweep np_roots fuel power L Lmax fsw n V1 V2 d <> Ok series.
Proof.
  intros Hfix Hle.
  induction fuel as [| fuel IH]; intros series; simpl; rewrite Hle.
  - discriminate.
  - destruct (F64.resolution_point np_roots power L fsw n V1 V2 d) as [s | |];
      cbv beta iota delta [obind]; try discriminate.
    rewrite Hfix.
    destruct (F64.resolution_sweep np_roots fuel power L Lmax fsw n V1 V2 d)
      as [rest | |] eqn:E; cbv beta iota delta [obind]; try discriminate.
    now destruct (IH rest).
Qed.

Lemma binary64_sweep_stalls (np_roots : float -> outcome (float * float))
    (power L Lmax fsw n V1 V2 d : float) (s : F64.resolution_sample) :
  (L + 1e-6)%float = L ->
  (L <=? Lmax)%float = true ->
  F64.resolution_point np_roots power L fsw n V1 V2 d = Ok s ->
  forall fuel,
    F64.resolution_sweep np_roots fuel power L Lmax fsw n V1 V2 d = OutOfFuel.
Proof.
  intros Hfix Hle Hpt.
  induction fuel as [| fuel IH]; simpl; rewrite Hle; [reflexivity |].
  rewrite Hpt. cbv beta iota delta [obind]. rewrite Hfix, IH. reflexivity.
Qed.

(** X22.  On the program's double-precision numbers, when the first
    inductance [Lmin <= Lmax] is so large that [Lmin + 1e-6] rounds back to
    [Lmin], [ploss_vs_resolution] returns no series: the loop takes the same
    sample again and again, so the call raises if the sample raises and
    otherwise never returns. *)
Theorem ploss_vs_resolution_stalls_on_absorbed_increment
    (np_roots : float -> outcome (float * float))
    (power Lmin Lmax fsw n V1 V2 Ts d : float) :
  (Lmin + 1e-6)%float = Lmin ->
  (Lmin <=? Lmax)%float = true ->
  (forall fuel series,
      F64.ploss_vs_resolution np_roots fuel power Lmin Lmax fsw n V1 V2 Ts d
      <> Ok series)
  /\ (forall s,
        F64.resolution_point np_roots power Lmin fsw n V1 V2 d = Ok s ->
        forall fuel,
          F64.ploss_vs_resolution np_roots fuel power Lmin Lmax fsw n V1 V2 Ts d
          = OutOfFuel).
Proof.
  intros Hfix Hle. unfold F64.ploss_vs_resolution. split.
  - now apply binary64_sweep_no_series.
  - intros s Hpt. now apply (binary64_sweep_stalls np_roots _ _ _ _ _ _ _ _ s).
Qed.

Lemma ploss_vs_resolution_stalls_on_absorbed_increment_witness :
  (5.96e12 + 1e-6)%float = 5.96e12%float
  /\ (5.96e12 <=? 6e12)%float = true
  /\ F64.quadratic_c 1000 100e3 5.96e12 15 720 40
     = Ok (-1379629629629629.75)%float
  /\ forall (np_roots : float -> outcome (float * float)) roots,
       np_roots (-1379629629629629.75)%float = Ok roots ->
       forall fuel,
         F64.ploss_vs_resolution np_roots fuel 1000 5.96e12 6e12 100e3 15 720 40
           (1 / 100e3) (100e3 / 250e6)
         = OutOfFuel.
Proof.
  split; [vm_compute; reflexivity |].
  split; [vm_compute; reflexivity |].
  split; [vm_compute; reflexivity |].
  intros np_roots roots Hroots.
  assert (Hpt : exists s,
             F64.resolution_point np_roots 1000 5.96e12 100e3 15 720 40
               (100e3 / 250e6) = Ok s).
  { unfold F64.resolution_point.
    replace (F64.quadratic_c 1000 100e3 5.96e12 15 720 40)%float
      with (Ok (-1379629629629629.75)%float) by (vm_compute; reflexivity).
    cbv beta iota delta [obind F64.select_root].
    rewrite Hroots. cbv beta iota delta [obind].
    unfold F64.Irms_prim_phaseShift. cbv zeta.
    replace (F64.truediv 1 (2 * 100e3 * 5.96e12))%float
      with (Ok (1 / (2 * 100e3 * 5.96e12))%float) by (vm_compute; reflexivity).
    cbv beta iota delta [obind].
    replace (F64.square 0.5)%float with (Ok 0.25%float)
      by (vm_compute; reflexivity).
    cbv beta iota delta [obind].
    replace (F64.square 720)%float with (Ok 518400%float)
      by (vm_compute; reflexivity).
    cbv beta iota delta [obind].
    replace (F64.square 15)%float with (Ok 225%float)
      by (vm_compute; reflexivity).
    cbv beta iota delta [obind].
    replace (F64.square 40)%float with (Ok 1600%float)
      by (vm_compute; reflexivity).
    cbv beta iota delta [obind].
    eexists. reflexivity. }
  destruct Hpt as [s Hpt].
  exact (proj2 (ploss_vs_resolution_stalls_on_absorbed_increment np_roots
                  1000 5.96e12 6e12 100e3 15 720 40 (1 / 100e3) (100e3 / 250e6)
                  ltac:(vm_compute; reflexivity) ltac:(vm_compute; reflexivity))
           s Hpt)%float.
Defined.

End Binary64Sweep.


Lemma int_unit_interval (x : R) : 0 <= x < 1 -> int x = 0%Z.
Proof.
  intros [H0 H1]. unfold int. destruct (Rle_dec 0 x) as [_ | N]; [| contradiction].
  symmetry. apply Int_part_spec. simpl. lra.
Qed.

Lemma int_nonneg (x : R) : 0 <= x -> (0 <= int x)%Z.
Proof.
  intros H0. unfold int. destruct (Rle_dec 0 x) as [_ | N]; [| contradiction].
  destruct (base_Int_part x) as [_ Hlow].
  assert (Hlt : IZR (-1) < IZR (Int_part x)) by (simpl; lra).
  apply lt_IZR in Hlt. lia.
Qed.





(** ** The plots of a feasible run *)

Lemma compute_bounds_P_min (fuel : nat) (P V1 V2 fsw f_clk n rp : R)
    (log log' : list event) (b : bounds) :
  compute_bounds fuel P V1 V2 fsw f_clk n rp log = (Ok b, log') ->
  b_P_min b = 0.5 * P.
Proof.
  unfold compute_bounds, bind, lift, emit, ret. intros H.
  repeat match type of H with
         | context [match ?o with Ok _ => _ | Raise _ => _ | OutOfFuel => _ end] =>
             destruct o; simpl in H; try discriminate (f_equal fst H)
         end.
  injection H as <- _. reflexivity.
Qed.

Lemma filter_quiet (added : list event) :
  existsb is_plot added = false -> filter is_plot added = [].
Proof.
  induction added as [| e added IH]; simpl; [reflexivity |].
  destruct (is_plot e); simpl; [discriminate | exact IH].
Qed.

Lemma report_bounds_feasible_inv (fuel : nat) (P V1 V2 fsw n : R) (b : bounds)
    (log log' : list event) :
  report_bounds fuel P V1 V2 fsw n b log = (Ok tt, log') ->
  b_Lmin b <= b_Lmax b ->
  exists s1 s2 added,
    ploss_vs_resolution fuel P (b_Lmin b) (b_Lmax b) fsw n V1 V2 (b_Ts b)
      (b_phase_shift_min b) = Ok s1
    /\ ploss_vs_resolution fuel (b_P_min b) (b_Lmin b) (b_Lmax b) fsw n V1 V2
         (b_Ts b) (b_phase_shift_min b) = Ok s2
    /\ log' = log ++ added
    /\ filter is_plot added
       = [Figure_resolution P s1; Figure_resolution (b_P_min b) s2; Plt_show false].
Proof.
  unfold report_bounds. intros H Hfeasible.
  destruct (Rlt_dec (b_Lmax b) (b_Lmin b)) as [N | _]; [lra |].
  unfold bind, emit, lift in H.
  destruct (ploss_vs_resolution fuel P (b_Lmin b) (b_Lmax b) fsw n V1 V2 (b_Ts b)
              (b_phase_shift_min b)) as [s1 | |]; try discriminate (f_equal fst H).
  destruct (ploss_vs_resolution fuel (b_P_min b) (b_Lmin b) (b_Lmax b) fsw n V1 V2
              (b_Ts b) (b_phase_shift_min b)) as [s2 | |];
    try discriminate (f_equal fst H).
  injection H as <-.
  exists s1, s2. eexists. split; [reflexivity |]. split; [reflexivity |].
  split; [rewrite <- !app_assoc; reflexivity | reflexivity].
Qed.

Lemma power_range_plot_feasible_inv (P V1 V2 fsw n : R) (b : bounds) (Ltot : R)
    (log log' : list event) :
  power_range_plot P V1 V2 fsw n b Ltot log = (Ok tt, log') ->
  b_Lmin b <= b_Lmax b ->
  exists s3,
    ploss_vs_P (b_P_min b) P Ltot fsw n V1 V2 = Ok s3
    /\ log' = log ++ [Figure_power Ltot s3; Plt_show true].
Proof.
  unfold power_range_plot. intros H Hfeasible.
  destruct (Rge_dec (b_Lmax b) (b_Lmin b)) as [_ | N]; [| lra].
  unfold bind, emit, lift in H.
  destruct (ploss_vs_P (b_P_min b) P Ltot fsw n V1 V2) as [s3 | |];
    try discriminate (f_equal fst H).
  injection H as <-. exists s3. split; [reflexivity |].
  now rewrite <- app_assoc.
Qed.

(** X14.  A run that returns a dictionary with [Lmin <= Lmax] has plotted,
    in this order and nothing else: the series of [ploss_vs_resolution] at
    full power and at half power over [[Lmin, Lmax]], shown without
    blocking, then the series of [ploss_vs_P] from half to full power at the
    selected inductance, shown with the blocking [plt.show()]. *)
Theorem feasible_run_plots (py_float : string -> option R) (fuel : nat)
    (args : sizing_args) (stdin : input_result) (log log' : list event)
    (r : sizing_result) :
  dab_inductor_sizing_phaseShift py_float fuel args stdin log = (Ok r, log') ->
  res_Lmin r <= res_Lmax r ->
  exists Ts d s1 s2 s3 added,
    ploss_vs_resolution fuel (rated_P args) (res_Lmin r) (res_Lmax r)
      (given_fsw args) (given_n args) (given_V1 args) (given_V2 args) Ts d = Ok s1
    /\ ploss_vs_resolution fuel (0.5 * rated_P args) (res_Lmin r) (res_Lmax r)
         (given_fsw args) (given_n args) (given_V1 args) (given_V2 args) Ts d
       = Ok s2
    /\ ploss_vs_P (0.5 * rated_P args) (rated_P args) (res_Ltot r)
         (given_fsw args) (given_n args) (given_V1 args) (given_V2 args) = Ok s3
    /\ log' = log ++ added
    /\ filter is_plot added
       = [Figure_resolution (rated_P args) s1;
          Figure_resolution (0.5 * rated_P args) s2;
          Plt_show false;
          Figure_power (res_Ltot r) s3;
          Plt_show true].
Proof.
  unfold dab_inductor_sizing_phaseShift. cbv zeta.
  fold (rated_P args) (given_V1 args) (given_V2 args) (given_fsw args)
    (given_f_clk args) (given_Llk args) (given_n args) (given_resolution args).
  intros H Hfeasible.
  apply bind_ok_inv in H. destruct H as (b & log1 & Hb & H).
  apply bind_ok_inv in H. destruct H as ([] & log2 & Hrep & H).
  apply bind_ok_inv in H. destruct H as (l & log3 & Hsel & H).
  apply bind_ok_inv in H. destruct H as (r' & log4 & Hdc & H).
  apply bind_ok_inv in H. destruct H as ([] & log5 & Hplot & H).
  unfold ret in H. injection H as -> ->.
  destruct (design_characteristics_inv _ _ _ _ _ _ _ _ _ _ _ Hdc)
    as (Emin & Emax & Etot & _).
  rewrite Emin, Emax, Etot in *.
  pose proof (compute_bounds_P_min _ _ _ _ _ _ _ _ _ _ _ Hb) as EP.
  assert (Hlog1 : exists p1, log1 = log ++ p1 /\ filter is_plot p1 = []).
  { destruct (compute_bounds_log _ _ _ _ _ _ _ _ _ _ _ Hb) as [-> | [L0 ->]].
    - exists []. now rewrite app_nil_r.
    - now exists [Stdout (Line_Lmin_ZVS L0)]. }
  destruct Hlog1 as (p1 & -> & Hp1).
  destruct (report_bounds_feasible_inv _ _ _ _ _ _ _ _ _ Hrep Hfeasible)
    as (s1 & s2 & p2 & Hs1 & Hs2 & -> & Hp2).
  destruct (select_inductance_returns py_float (arg_Ltot args) stdin
              (b_Lmin b) (b_Lmax b) ((log ++ p1) ++ p2))
    as (l' & p3 & Hsel' & Hp3).
  rewrite Hsel in Hsel'. injection Hsel' as _ ->.
  destruct (quiet_design_characteristics (rated_P args) (given_V1 args)
              (given_V2 args) (given_fsw args) (given_Llk args) (given_n args) b l
              (((log ++ p1) ++ p2) ++ p3)) as (out & p4 & Hdc' & _ & Hp4).
  rewrite Hdc in Hdc'. injection Hdc' as _ ->.
  destruct (power_range_plot_feasible_inv _ _ _ _ _ _ _ _ _ Hplot Hfeasible)
    as (s3 & Hs3 & ->).
  rewrite EP in *.
  exists (b_Ts b), (b_phase_shift_min b), s1, s2, s3.
  exists (p1 ++ p2 ++ p3 ++ p4 ++ [Figure_power l s3; Plt_show true]).
  split; [exact Hs1 |]. split; [exact Hs2 |]. split; [exact Hs3 |].
  split; [now rewrite <- !app_assoc |].
  rewrite !filter_app, Hp1, Hp2, (filter_quiet p3 Hp3), (filter_quiet p4 Hp4).
  reflexivity.
Qed.

(** The default run returns a feasible design. *)
Lemma default_run_feasible :
  exists fuel r log',
    dab_inductor_sizing_phaseShift (fun _ => None) fuel
      (SizingArgs None None None None None None None None None) EOFError []
    = (Ok r, log')
    /\ res_Lmin r <= res_Lmax r.
Proof.
  destruct (sizing_returns (fun _ => None)
              (SizingArgs None None None None None None None None None) EOFError
              default_args_positive I)
    as (fuel & L0 & j & b & r & _ & _ & _ & Hrun).
  destruct (Hrun 0%nat []) as [log' Hrun0].
  exists (fuel + 0)%nat, r, log'. split; [exact Hrun0 |].
  destruct (sizing_inv _ _ _ _ _ _ _ Hrun0) as (b' & log1 & Hb & Hspec).
  destruct Hspec as (-> & -> & _).
  unfold rated_P, given_V1, given_V2, given_fsw, given_f_clk, given_n,
    given_resolution in Hb. simpl in Hb.
  destruct (zvs_lower_bound_ok (0.5 * 1e3) 720 40 15 (1 / 100e3))
    as (L0' & HL0 & HL0eq & _); try lra.
  destruct (lower_bound_estimate 1e3 720 40 100e3 250e6 15 0.025
              ltac:(lra) ltac:(lra) ltac:(lra) ltac:(lra) ltac:(lra) ltac:(lra)
              ltac:(lra) _ _ _ _ Hb L0' HL0) as [_ Hfeasible].
  apply Hfeasible; [rewrite HL0eq; unfold Coss_pri; lra | lra].
Qed.

Lemma feasible_run_plots_witness :
  exists fuel r log' Ts d s1 s2 s3 added,
    dab_inductor_sizing_phaseShift (fun _ => None) fuel
      (SizingArgs None None None None None None None None None) EOFError []
    = (Ok r, log')
    /\ ploss_vs_resolution fuel 1e3 (res_Lmin r) (res_Lmax r) 100e3 15 720 40 Ts d
       = Ok s1
    /\ ploss_vs_resolution fuel (0.5 * 1e3) (res_Lmin r) (res_Lmax r) 100e3 15
         720 40 Ts d = Ok s2
    /\ ploss_vs_P (0.5 * 1e3) 1e3 (res_Ltot r) 100e3 15 720 40 = Ok s3
    /\ log' = [] ++ added
    /\ filter is_plot added
       = [Figure_resolution 1e3 s1; Figure_resolution (0.5 * 1e3) s2;
          Plt_show false; Figure_power (res_Ltot r) s3; Plt_show true].
Proof.
  destruct default_run_feasible as (fuel & r & log' & Hrun & Hfeasible).
  destruct (feasible_run_plots (fun _ => None) fuel
              (SizingArgs None None None None None None None None None) EOFError
              [] log' r Hrun Hfeasible)
    as (Ts & d & s1 & s2 & s3 & added & H1 & H2 & H3 & Hlog & Hplots).
  exists fuel, r, log', Ts, d, s1, s2, s3, added.
  split; [exact Hrun |]. split; [exact H1 |]. split; [exact H2 |].
  split; [exact H3 |]. split; [exact Hlog | exact Hplots].
Defined.

(** * Properties of the analyzer of [sst_analysis.py] *)

Module SSTFacts.
Import SST.

Lemma fdiv_ok (x y : R) : y <> 0 -> fdiv x y = Return (x / y).
Proof.
  intros Hy. unfold fdiv. destruct (Req_dec_T y 0); [contradiction | reflexivity].
Qed.

Lemma fdiv_zero (x : R) : fdiv x 0 = Throw ZeroDivisionError.
Proof.
  unfold fdiv. destruct (Req_dec_T 0 0) as [_ | N]; [reflexivity | now destruct N].
Qed.

(** X15.  For a non-zero efficiency parameter [calculate_power_losses]
    returns; the four loss components add up to the total loss, the total
    loss is [P (1 - eff) / eff], and the input power times the efficiency is
    the output power.  For an efficiency in [(0, 1]] and a non-negative
    output power the total loss is not negative and the input power is at
    least the output power. *)
Theorem power_losses_add_up (self : SSTAnalyzer) (output_power : R) :
  efficiency (params self) <> 0 ->
  exists l,
    calculate_power_losses self output_power = Return l
    /\ total_loss l
       = output_power * (1 - efficiency (params self)) / efficiency (params self)
    /\ switching_losses l + conduction_losses l + magnetic_losses l + other_losses l
       = total_loss l
    /\ input_power l * efficiency (params self) = output_power
    /\ (0 < efficiency (params self) <= 1 -> 0 <= output_power ->
        0 <= total_loss l /\ output_power <= input_power l).
Proof.
  intros He. unfold calculate_power_losses. rewrite fdiv_ok by assumption.
  simpl. eexists. split; [reflexivity |]. simpl.
  set (e := efficiency (params self)) in *.
  split; [reflexivity |]. split; [lra |]. split; [field; assumption |].
  intros [He0 He1] HP.
  assert (0 <= output_power * (1 - e) / e).
  { unfold Rdiv. apply Rmult_le_pos; [| left; now apply Rinv_0_lt_compat].
    apply Rmult_le_pos; lra. }
  lra.
Qed.

Lemma power_losses_add_up_witness :
  exists l,
    calculate_power_losses (init default_parameters) 10 = Return l
    /\ total_loss l = 10 * (1 - 0.95) / 0.95
    /\ switching_losses l + conduction_losses l + magnetic_losses l + other_losses l
       = total_loss l
    /\ input_power l * 0.95 = 10
    /\ (0 < 0.95 <= 1 -> 0 <= 10 -> 0 <= total_loss l /\ 10 <= input_power l).
Proof.
  apply (power_losses_add_up (init default_parameters) 10). simpl. lra.
Defined.

(** X16.  With the efficiency parameter zero, [calculate_power_losses] called
    with a float raises [ZeroDivisionError], and so does [thermal_analysis]. *)
Theorem zero_efficiency_raises (self : SSTAnalyzer) (output_power ambient_temp : R) :
  efficiency (params self) = 0 ->
  calculate_power_losses self output_power = Throw ZeroDivisionError
  /\ thermal_analysis self output_power ambient_temp = Throw ZeroDivisionError.
Proof.
  intros He.
  assert (H : calculate_power_losses self output_power = Throw ZeroDivisionError).
  { unfold calculate_power_losses. rewrite He, fdiv_zero. reflexivity. }
  split; [exact H |]. unfold thermal_analysis. now rewrite H.
Qed.

Lemma zero_efficiency_raises_witness :
  calculate_power_losses (init (Build_SSTParameters 400 208 10 50 0 0.03)) 10
  = Throw ZeroDivisionError
  /\ thermal_analysis (init (Build_SSTParameters 400 208 10 50 0 0.03)) 10 25
     = Throw ZeroDivisionError.
Proof.
  apply (zero_efficiency_raises (init (Build_SSTParameters 400 208 10 50 0 0.03))
           10 25).
  reflexivity.
Defined.

(** X17.  The transformer turns ratio is the ratio of the output to the input
    voltage (the rectifier factor [1.35 sqrt 2] cancels); with a zero input
    voltage it is a non-finite number, not an exception. *)
Theorem turns_ratio_is_voltage_ratio (self : SSTAnalyzer) :
  (input_voltage (params self) <> 0 ->
   calculate_transformer_turns_ratio self
   = Finite (output_voltage (params self) / input_voltage (params self)))
  /\ (input_voltage (params self) = 0 ->
      calculate_transformer_turns_ratio self = NonFinite).
Proof.
  unfold calculate_transformer_turns_ratio, calculate_dc_link_voltage.
  assert (Hs : 0 < sqrt 2) by (apply sqrt_lt_R0; lra).
  split.
  - intros Hin.
    assert (Hne : 1.35 * input_voltage (params self) * sqrt 2 <> 0).
    { intros E. apply Rmult_integral in E. destruct E as [E | E]; [| lra].
      apply Rmult_integral in E. destruct E; [lra | contradiction]. }
    cbv zeta. rewrite np_div_finite by exact Hne. apply f_equal.
    generalize dependent (input_voltage (params self)). intros vin Hin Hne.
    generalize dependent (sqrt 2). intros s Hs Hne.
    replace 1.35 with (135 / 100) by lra. field. split; lra.
  - intros ->. cbv zeta. replace (1.35 * 0 * sqrt 2) with 0 by ring.
    simpl. destruct (Req_dec_T 0 0) as [_ | N]; [reflexivity | now destruct N].
Qed.

Lemma getitem_missing (d : dict) (key : string) :
  ~ In key (map fst d) -> getitem d key = Throw (KeyError key).
Proof.
  induction d as [| [k v] d IH]; simpl; [reflexivity |].
  intros Hnot. destruct (string_dec k key) as [E | _]; [tauto |].
  apply IH. tauto.
Qed.

(** X18.  The switching losses are [8 (E_on + E_off) f / 1000] with [f] the
    switching frequency parameter: they depend neither on the output power
    nor on the other entries of the MOSFET dictionary; without a dictionary
    they are [0.0064 f].  A dictionary without ['E_on'], or with ['E_on'] but
    without ['E_off'], raises [KeyError] for that key. *)
Theorem switching_losses_closed_form (self : SSTAnalyzer) (output_power : R)
    (d : dict) :
  (forall E_on E_off,
     getitem d "E_on" = Return E_on -> getitem d "E_off" = Return E_off ->
     calculate_switching_losses self output_power (Some d)
     = Return (8 * (E_on + E_off) * switching_frequency (params self) / 1000))
  /\ calculate_switching_losses self output_power None
     = Return (0.0064 * switching_frequency (params self))
  /\ (~ In "E_on"%string (map fst d) ->
      calculate_switching_losses self output_power (Some d)
      = Throw (KeyError "E_on"))
  /\ (In "E_on"%string (map fst d) -> ~ In "E_off"%string (map fst d) ->
      calculate_switching_losses self output_power (Some d)
      = Throw (KeyError "E_off")).
Proof.
  unfold calculate_switching_losses. cbv zeta.
  split; [| split; [| split]].
  - intros a b -> ->. simpl. apply f_equal. field.
  - simpl. apply f_equal. lra.
  - intros Hnot. now rewrite getitem_missing.
  - intros Hin Hnot.
    assert (Hget : exists a, getitem d "E_on" = Return a).
    { clear Hnot. induction d as [| [k v] d IH]; simpl in *; [contradiction |].
      destruct (string_dec k "E_on") as [E | N]; [eauto |].
      destruct Hin as [E | Hin]; [contradiction | now apply IH]. }
    destruct Hget as [a ->]. simpl. now rewrite getitem_missing.
Qed.

(** X19.  For a non-zero efficiency parameter [thermal_analysis] returns; the
    temperature rise is half the total loss and the junction temperature is
    the ambient temperature plus the rise.  The junction is not colder than
    the ambient for an efficiency in [(0, 1]] and a non-negative power, but
    an efficiency above 1 is not refused and puts the junction below the
    ambient temperature. *)
Theorem thermal_analysis_rise (self : SSTAnalyzer) (output_power ambient_temp : R) :
  efficiency (params self) <> 0 ->
  exists th,
    thermal_analysis self output_power ambient_temp = Return th
    /\ ambient_temperature th = ambient_temp
    /\ temperature_rise th
       = 0.5 * (output_power * (1 - efficiency (params self))
                / efficiency (params self))
    /\ junction_temperature th = ambient_temp + temperature_rise th
    /\ (0 < efficiency (params self) <= 1 -> 0 <= output_power ->
        ambient_temp <= junction_temperature th)
    /\ (1 < efficiency (params self) -> 0 < output_power ->
        junction_temperature th < ambient_temp).
Proof.
  intros He. unfold thermal_analysis, calculate_power_losses.
  rewrite fdiv_ok by assumption. simpl.
  eexists. split; [reflexivity |]. simpl.
  set (e := efficiency (params self)) in *.
  split; [reflexivity |]. split; [lra |]. split; [reflexivity |].
  split.
  - intros [He0 He1] HP.
    assert (0 <= output_power * (1 - e) / e).
    { unfold Rdiv. apply Rmult_le_pos; [| left; now apply Rinv_0_lt_compat].
      apply Rmult_le_pos; lra. }
    lra.
  - intros He1 HP.
    assert (0 < output_power * (e - 1) / e).
    { unfold Rdiv. apply Rmult_lt_0_compat; [| apply Rinv_0_lt_compat; lra].
      apply Rmult_lt_0_compat; lra. }
    assert (output_power * (1 - e) / e = - (output_power * (e - 1) / e))
      by (field; lra).
    lra.
Qed.

Lemma thermal_analysis_rise_witness :
  exists th,
    thermal_analysis (init default_parameters) 10 25 = Return th
    /\ ambient_temperature th = 25
    /\ temperature_rise th = 0.5 * (10 * (1 - 0.95) / 0.95)
    /\ junction_temperature th = 25 + temperature_rise th
    /\ (0 < 0.95 <= 1 -> 0 <= 10 -> 25 <= junction_temperature th)
    /\ (1 < 0.95 -> 0 < 10 -> junction_temperature th < 25).
Proof.
  apply (thermal_analysis_rise (init default_parameters) 10 25). simpl. lra.
Defined.

Lemma nth_error_seq_lt (start len i : nat) :
  (i < len)%nat -> nth_error (seq start len) i = Some (start + i)%nat.
Proof.
  revert start i. induction len as [| len IH]; intros start i Hi; [lia |].
  destruct i as [| i]; simpl; [f_equal; lia |].
  rewrite IH by lia. f_equal. lia.
Qed.

Lemma linspace_nth (start stop : R) (num : Z) :
  (2 <= num)%Z ->
  exists t,
    linspace start stop num = Return t
    /\ List.length t = Z.to_nat num
    /\ forall i, (i < Z.to_nat num)%nat ->
         nth_error t i
         = Some (INR i * ((stop - start) / INR (Z.to_nat num - 1)) + start).
Proof.
  intros Hnum. unfold linspace.
  destruct (Z.ltb_spec num 0) as [N | _]; [lia |].
  destruct (Z.to_nat num) as [| [| m]] eqn:E; try lia.
  eexists. split; [reflexivity |]. split.
  - now rewrite length_map, length_seq.
  - intros i Hi. rewrite nth_error_map, nth_error_seq_lt by exact Hi.
    simpl option_map. apply f_equal.
    replace (S (S m) - 1)%nat with (S m) by lia.
    change (0 + i)%nat with i.
    destruct (Nat.eqb_spec i (S m)) as [-> | _]; [| reflexivity].
    assert (INR (S m) <> 0) by (apply not_0_INR; lia).
    field. assumption.
Qed.

Lemma sine_sample_bound (a x : R) : Rabs (a * sin x) <= Rabs a.
Proof.
  rewrite Rabs_mult. pose proof (Rabs_pos a). pose proof (SIN_bound x) as [Hl Hu].
  assert (Rabs (sin x) <= 1) by (apply Rabs_le; lra).
  nra.
Qed.

(** X20.  For [sampling_rate * duration >= 0], [generate_sine_wave] returns
    [N = int(sampling_rate * duration)] time points and as many samples
    [amplitude * sin(2 pi f t)], none beyond the amplitude in absolute value.
    From two points on the time points are [i * duration / (N - 1)], the
    last being [duration]; so when [sampling_rate * duration] is an integer
    the step between samples is longer than [1 / sampling_rate]. *)
Theorem generate_sine_wave_samples (self : SSTAnalyzer)
    (amplitude frequency duration sampling_rate : R) :
  0 <= sampling_rate * duration ->
  exists t w,
    generate_sine_wave self amplitude frequency duration sampling_rate
    = Return (t, w)
    /\ List.length t = Z.to_nat (int (sampling_rate * duration))
    /\ w = map (fun ti => amplitude * sin (2 * PI * frequency * ti)) t
    /\ Forall (fun x => Rabs x <= Rabs amplitude) w
    /\ ((2 <= int (sampling_rate * duration))%Z ->
        (forall i, (i < List.length t)%nat ->
           nth_error t i
           = Some (INR i * (duration / INR (List.length t - 1))))
        /\ nth_error t (List.length t - 1) = Some duration
        /\ (IZR (int (sampling_rate * duration)) = sampling_rate * duration ->
            0 < duration ->
            1 / sampling_rate < duration / INR (List.length t - 1))).
Proof.
  intros Hnonneg. pose proof (int_nonneg _ Hnonneg) as Hnum.
  unfold generate_sine_wave.
  assert (Hlin : exists t,
             linspace 0 duration (int (sampling_rate * duration)) = Return t
             /\ List.length t = Z.to_nat (int (sampling_rate * duration))).
  { unfold linspace.
    destruct (Z.ltb_spec (int (sampling_rate * duration)) 0) as [N | _]; [lia |].
    eexists. split; [reflexivity |].
    destruct (Z.to_nat (int (sampling_rate * duration))) as [| [| m]];
      [reflexivity | reflexivity |].
    now rewrite length_map, length_seq. }
  destruct Hlin as (t & Ht & Hlen). rewrite Ht. simpl rbind.
  exists t. eexists. split; [reflexivity |]. split; [exact Hlen |].
  split; [reflexivity |]. split.
  - rewrite Forall_map. rewrite Forall_forall. intros ti _. apply sine_sample_bound.
  - intros H2.
    destruct (linspace_nth 0 duration _ H2) as (t' & Ht' & _ & Hnth).
    rewrite Ht in Ht'. injection Ht' as <-.
    rewrite Hlen.
    set (N := Z.to_nat (int (sampling_rate * duration))) in *.
    assert (HN : (2 <= N)%nat) by (unfold N; lia).
    assert (HINR : INR (N - 1) <> 0) by (apply not_0_INR; lia).
    assert (Hpts : forall i, (i < N)%nat ->
               nth_error t i = Some (INR i * (duration / INR (N - 1)))).
    { intros i Hi. rewrite (Hnth i Hi). apply f_equal.
      rewrite Rminus_0_r. ring. }
    split; [exact Hpts |]. split.
    + rewrite Hpts by lia. apply f_equal. field. exact HINR.
    + intros Hint Hdur.
      assert (HNR : INR (N - 1) = sampling_rate * duration - 1).
      { rewrite minus_INR by lia. unfold N.
        rewrite INR_IZR_INZ, Z2Nat.id by lia. rewrite Hint. simpl. ring. }
      rewrite HNR.
      assert (Hprod : 2 <= sampling_rate * duration).
      { rewrite <- Hint. apply IZR_le in H2. exact H2. }
      assert (Hsr : 0 < sampling_rate) by nra.
      apply (Rmult_lt_reg_r (sampling_rate * (sampling_rate * duration - 1)));
        [apply Rmult_lt_0_compat; lra |].
      replace (1 / sampling_rate * (sampling_rate * (sampling_rate * duration - 1)))
        with (sampling_rate * duration - 1) by (field; lra).
      replace (duration / (sampling_rate * duration - 1)
               * (sampling_rate * (sampling_rate * duration - 1)))
        with (sampling_rate * duration) by (field; lra).
      lra.
Qed.

Lemma generate_sine_wave_samples_witness :
  exists t w,
    generate_sine_wave (init default_parameters) 120 60 1 1000 = Return (t, w)
    /\ List.length t = Z.to_nat (int (1000 * 1))
    /\ w = map (fun ti => 120 * sin (2 * PI * 60 * ti)) t
    /\ Forall (fun x => Rabs x <= Rabs 120) w
    /\ ((2 <= int (1000 * 1))%Z ->
        (forall i, (i < List.length t)%nat ->
           nth_error t i = Some (INR i * (1 / INR (List.length t - 1))))
        /\ nth_error t (List.length t - 1) = Some 1
        /\ (IZR (int (1000 * 1)) = 1000 * 1 -> 0 < 1 ->
            1 / 1000 < 1 / INR (List.length t - 1))).
Proof.
  apply (generate_sine_wave_samples (init default_parameters) 120 60 1 1000). lra.
Defined.

Lemma int_below_minus_one (x : R) : x <= -1 -> (int x <= -1)%Z.
Proof.
  intros Hx. unfold int. destruct (Rle_dec 0 x) as [P | _]; [lra |].
  destruct (base_Int_part (- x)) as [_ Hlow].
  assert (Hlt : IZR 0 < IZR (Int_part (- x))) by (simpl; lra).
  apply lt_IZR in Hlt. lia.
Qed.

Lemma int_small (x : R) : -1 < x < 1 -> int x = 0%Z.
Proof.
  intros [Hl Hu]. destruct (Rle_dec 0 x) as [P | N].
  - apply int_unit_interval. lra.
  - unfold int. destruct (Rle_dec 0 x) as [P | _]; [contradiction |].
    assert (E : Int_part (- x) = 0%Z)
      by (symmetry; apply Int_part_spec; simpl; lra).
    now rewrite E.
Qed.

(** X21.  [generate_sine_wave] with [sampling_rate * duration <= -1] raises
    [ValueError] (a negative number of samples); with
    [-1 < sampling_rate * duration < 1] it returns two empty arrays. *)
Theorem generate_sine_wave_degenerate (self : SSTAnalyzer)
    (amplitude frequency duration sampling_rate : R) :
  (sampling_rate * duration <= -1 ->
   generate_sine_wave self amplitude frequency duration sampling_rate
   = Throw ValueError)
  /\ (-1 < sampling_rate * duration < 1 ->
      generate_sine_wave self amplitude frequency duration sampling_rate
      = Return ([], [])).
Proof.
  unfold generate_sine_wave, linspace. split.
  - intros H. apply int_below_minus_one in H.
    destruct (Z.ltb_spec (int (sampling_rate * duration)) 0) as [_ | N]; [| lia].
    reflexivity.
  - intros H. rewrite (int_small _ H). reflexivity.
Qed.

End SSTFacts.
